(** * Deep Space D-6: the rules engine, embedded and verified

    A shallow embedding of the game's rules engine:
    - [src/types/game.ts]      the data model,
    - [src/logic/dice.ts]      random draw primitives and the tactical formula,
    - [src/logic/deck.ts]      the card catalogue, [buildDeck], [drawCard],
    - [src/logic/threats.ts]   damage, targeting, the activation pass, win/loss,
    - [src/logic/stations.ts]  station abilities, scanners, gathering,
    - [src/state/reducer.ts]   the turn-phase reducer.

    JavaScript numbers are the integers the game uses and are modelled by [Z];
    array lengths and indices are [nat].  Strings are real strings: card and
    instance ids, log lines and the once-per-turn tags are compared as the
    source compares them.  The two pieces of ambient state of the source, the
    module-level [instanceCounter] and [Math.random], are threaded explicitly
    through a small state monad. *)

From stdpp Require Import base list strings pretty.
From Stdlib Require Import ZArith Lia.

Local Open Scope Z_scope.

(** ** [src/types/game.ts] *)

Inductive GameStatus := idle | playing | won | lost.
Inductive LossReason := loss_hull | loss_crew.
Inductive TurnPhase := rolling | assigning | drawing | activating | gathering.
Inductive Difficulty := easy | normal | hard.

(** [CrewFace] and [StationId] share five of their string literals; the
    constructors carry a prefix to keep the two types apart. *)
Inductive CrewFace :=
  | face_commander | face_tactical | face_medical
  | face_science | face_engineering | face_threat.

Inductive ThreatSymbol := skull | lightning | alien | warning | hazard | nova.

Inductive StationId :=
  | st_commander | st_tactical | st_engineering | st_medical
  | st_science | st_scanners | st_infirmary.

(** [DieLocation] is the string union
    ['pool' | 'infirmary' | 'scanners' | StationId | `threat-${string}`].
    ['infirmary'] and ['scanners'] are station ids, so the union has three
    disjoint shapes.  No station id and not ['pool'] starts with ['threat-'],
    hence [startsWith('threat-')] is "built by [on_threat]" and
    [slice('threat-'.length)] is its argument. *)
Inductive DieLocation :=
  | pool
  | at_station (s : StationId)
  | on_threat (threatId : string).

Inductive ThreatKind := internal | external | boss_barrier | filler.

#[global] Instance GameStatus_eq_dec : EqDecision GameStatus.
Proof. solve_decision. Defined.
#[global] Instance TurnPhase_eq_dec : EqDecision TurnPhase.
Proof. solve_decision. Defined.
#[global] Instance CrewFace_eq_dec : EqDecision CrewFace.
Proof. solve_decision. Defined.
#[global] Instance ThreatSymbol_eq_dec : EqDecision ThreatSymbol.
Proof. solve_decision. Defined.
#[global] Instance StationId_eq_dec : EqDecision StationId.
Proof. solve_decision. Defined.
#[global] Instance DieLocation_eq_dec : EqDecision DieLocation.
Proof. solve_decision. Defined.
#[global] Instance ThreatKind_eq_dec : EqDecision ThreatKind.
Proof. solve_decision. Defined.

(** The string behind each literal, as template strings print it. *)
Definition CrewFace_str (f : CrewFace) : string :=
  match f with
  | face_commander => "commander" | face_tactical => "tactical"
  | face_medical => "medical" | face_science => "science"
  | face_engineering => "engineering" | face_threat => "threat"
  end.

Definition StationId_str (s : StationId) : string :=
  match s with
  | st_commander => "commander" | st_tactical => "tactical"
  | st_engineering => "engineering" | st_medical => "medical"
  | st_science => "science" | st_scanners => "scanners"
  | st_infirmary => "infirmary"
  end.

Definition ThreatSymbol_str (f : ThreatSymbol) : string :=
  match f with
  | skull => "skull" | lightning => "lightning" | alien => "alien"
  | warning => "warning" | hazard => "hazard" | nova => "nova"
  end.

Record ResolutionRequirement := {
  req_face : CrewFace;
  req_count : Z
}.

Record ThreatCard := {
  card_id : string;
  name : string;
  kind : ThreatKind;
  activation : ThreatSymbol;
  maxHealth : Z;
  description : string;
  resolution : option ResolutionRequirement;
  isOuroboros : bool;
  isBarrier : bool;
  immediateOnReveal : bool
}.

Record ActiveThreat := {
  threat_id : string;
  card : ThreatCard;
  health : Z;
  stasisTokens : Z;
  awayMission : list Z;
  isDestroyed : bool
}.

Record CrewDie := {
  die_id : Z;
  face : CrewFace;
  location : DieLocation
}.

(** Field updates written [{ ...d, location: l }] and the like. *)
Definition with_location (l : DieLocation) (d : CrewDie) : CrewDie :=
  {| die_id := die_id d; face := face d; location := l |}.

Definition with_face (f : CrewFace) (d : CrewDie) : CrewDie :=
  {| die_id := die_id d; face := f; location := location d |}.

Definition with_stasisTokens (n : Z) (t : ActiveThreat) : ActiveThreat :=
  {| threat_id := threat_id t; card := card t; health := health t;
     stasisTokens := n; awayMission := awayMission t;
     isDestroyed := isDestroyed t |}.

Definition with_health (h : Z) (destroyed : bool) (t : ActiveThreat) : ActiveThreat :=
  {| threat_id := threat_id t; card := card t; health := h;
     stasisTokens := stasisTokens t; awayMission := awayMission t;
     isDestroyed := destroyed |}.

Definition with_awayMission (a : list Z) (t : ActiveThreat) : ActiveThreat :=
  {| threat_id := threat_id t; card := card t; health := health t;
     stasisTokens := stasisTokens t; awayMission := a;
     isDestroyed := isDestroyed t |}.

(** ** [src/logic/threats.ts]: ship damage *)

Record ShipDamageResult := {
  sd_hull : Z;
  sd_shields : Z;
  sd_log : list string
}.

Definition applyDamage (hull shields hullDmg shieldDmg : Z) : ShipDamageResult :=
  (* Shield damage (direct) *)
  let '(newHull, newShields, log) :=
    if 0 <? shieldDmg then
      let actual := Z.min shields shieldDmg in
      let overflow := shieldDmg - actual in
      if 0 <? overflow then
        (hull - overflow, shields - actual,
         [pretty shieldDmg +:+ " shield damage — shields depleted, "
            +:+ pretty overflow +:+ " hull damage overflow."])
      else
        (hull, shields - actual, [pretty shieldDmg +:+ " shield damage."])
    else (hull, shields, []) in
  (* Hull damage (absorbed by shields first) *)
  let '(newHull, newShields, log) :=
    if 0 <? hullDmg then
      let absorbed := Z.min newShields hullDmg in
      let remaining := hullDmg - absorbed in
      (newHull - remaining, newShields - absorbed,
       log ++ [if 0 <? absorbed then
                 pretty hullDmg +:+ " hull damage — shields absorbed "
                   +:+ pretty absorbed +:+ ", " +:+ pretty remaining
                   +:+ " hull damage."
               else pretty hullDmg +:+ " hull damage."])
    else (newHull, newShields, log) in
  {| sd_hull := Z.max 0 newHull;
     sd_shields := Z.max 0 newShields;
     sd_log := log |}.

(** ** Ambient state: [instanceCounter] and [Math.random]

    [instanceCounter] is the module-level counter of [threats.ts].
    [Math.random] is modelled by a tape of outcomes: the source only ever
    uses [Math.floor(Math.random() * n)], an index below [n]; a tape entry [r]
    stands for the outcome [r mod n] (0 when [n] is 0, as [Math.floor(x * 0)]
    is), and an exhausted tape yields 0.  Every sequence of outcomes of the
    source is the reading of some tape. *)

Record World := {
  instanceCounter : Z;
  randomTape : list nat
}.

Definition M (A : Type) : Type := World → A * World.

#[global] Instance M_ret : MRet M := λ A a w, (a, w).
#[global] Instance M_bind : MBind M :=
  λ A B f m w, let '(a, w') := m w in f a w'.

(** [Math.floor(Math.random() * n)] *)
Definition randomIndex (n : nat) : M nat := λ w,
  match randomTape w with
  | [] => (0%nat, w)
  | r :: tape =>
      (match n with O => O | _ => r `mod` n end%nat,
       {| instanceCounter := instanceCounter w; randomTape := tape |})
  end.

(** [++instanceCounter] *)
Definition nextInstance : M Z := λ w,
  let n := instanceCounter w + 1 in
  (n, {| instanceCounter := n; randomTape := randomTape w |}).

(** [resetInstanceCounter] *)
Definition resetInstanceCounter : M unit := λ w,
  ((), {| instanceCounter := 0; randomTape := randomTape w |}).

(** ** [src/logic/dice.ts] *)

Definition CREW_FACE_DISTRIBUTION : list CrewFace :=
  [face_commander; face_tactical; face_medical;
   face_science; face_engineering; face_threat].

Definition ALL_CREW_FACES : list CrewFace :=
  [face_commander; face_tactical; face_medical;
   face_science; face_engineering; face_threat].

Definition THREAT_FACES : list ThreatSymbol :=
  [skull; lightning; alien; warning; hazard; nova].

Definition rollCrewFace : M CrewFace :=
  index ← randomIndex (length CREW_FACE_DISTRIBUTION);
  mret (default face_commander (CREW_FACE_DISTRIBUTION !! index)).

Fixpoint rollAllCrewDice (count : nat) : M (list CrewFace) :=
  match count with
  | O => mret []
  | S count' =>
      f ← rollCrewFace;
      fs ← rollAllCrewDice count';
      mret (f :: fs)
  end.

Definition rollThreatDie : M ThreatSymbol :=
  index ← randomIndex (length THREAT_FACES);
  mret (default skull (THREAT_FACES !! index)).

(** Tactical damage formula: 1 die = 1dmg, each additional die adds 2 *)
Definition calculateTacticalDamage (diceCount : Z) : Z :=
  if diceCount <=? 0 then 0 else 1 + (diceCount - 1) * 2.

(** ** [src/logic/deck.ts] *)

Definition DONT_PANIC_COUNTS (d : Difficulty) : nat :=
  match d with easy => 6 | normal => 3 | hard => 0 end%nat.

Definition with_card_id (i : string) (c : ThreatCard) : ThreatCard :=
  {| card_id := i; name := name c; kind := kind c; activation := activation c;
     maxHealth := maxHealth c; description := description c;
     resolution := resolution c; isOuroboros := isOuroboros c;
     isBarrier := isBarrier c; immediateOnReveal := immediateOnReveal c |}.

Definition requires (f : CrewFace) (n : Z) : option ResolutionRequirement :=
  Some {| req_face := f; req_count := n |}.

Definition DON_T_PANIC : ThreatCard :=
  {| card_id := "dont-panic"; name := "Don't Panic"; kind := filler;
     activation := skull; maxHealth := 0;
     description := "Nothing happens. Breathe.";
     resolution := None; isOuroboros := false; isBarrier := false;
     immediateOnReveal := false |}.

Definition PANEL_EXPLOSION : ThreatCard :=
  {| card_id := "panel-explosion"; name := "Panel Explosion"; kind := internal;
     activation := warning; maxHealth := 0;
     description := "ACTIVATE: Send 1 crew to the Infirmary.";
     resolution := requires face_engineering 1;
     isOuroboros := false; isBarrier := false; immediateOnReveal := false |}.

Definition DISTRACTED : ThreatCard :=
  {| card_id := "distracted"; name := "Distracted"; kind := internal;
     activation := nova; maxHealth := 0;
     description := "REVEAL: Immediately lock 1 crew die here. ACTIVATE: Free the die; discard this card.";
     resolution := None;
     isOuroboros := false; isBarrier := false; immediateOnReveal := true |}.

Definition DISTRACTED_2 : ThreatCard := with_card_id "distracted-2" DISTRACTED.
Definition DISTRACTED_3 : ThreatCard := with_card_id "distracted-3" DISTRACTED.

Definition FRIENDLY_FIRE : ThreatCard :=
  {| card_id := "friendly-fire"; name := "Friendly Fire"; kind := internal;
     activation := lightning; maxHealth := 0;
     description := "ACTIVATE: Deal 1 hull damage.";
     resolution := requires face_tactical 1;
     isOuroboros := false; isBarrier := false; immediateOnReveal := false |}.

Definition BOOST_MORALE : ThreatCard :=
  {| card_id := "boost-morale"; name := "Boost Morale"; kind := internal;
     activation := nova; maxHealth := 0;
     description := "ACTIVATE: Return 1 crew from the Infirmary.";
     resolution := requires face_commander 1;
     isOuroboros := false; isBarrier := false; immediateOnReveal := false |}.

Definition NEBULA : ThreatCard :=
  {| card_id := "nebula"; name := "Nebula"; kind := internal;
     activation := hazard; maxHealth := 0;
     description := "While in play: shields cannot be recharged. ACTIVATE: Deal 1 shield damage.";
     resolution := requires face_science 2;
     isOuroboros := false; isBarrier := false; immediateOnReveal := false |}.

Definition TIME_WARP : ThreatCard :=
  {| card_id := "time-warp"; name := "Time Warp"; kind := internal;
     activation := nova; maxHealth := 0;
     description := "While in play: external threats cannot be damaged below 1 HP. ACTIVATE: Shuffle the top 3 discard cards back into the deck.";
     resolution := requires face_science 2;
     isOuroboros := false; isBarrier := false; immediateOnReveal := false |}.

Definition PANDEMIC : ThreatCard :=
  {| card_id := "pandemic"; name := "Pandemic"; kind := internal;
     activation := hazard; maxHealth := 0;
     description := "ACTIVATE: Send ALL crew currently in the pool to the Infirmary.";
     resolution := requires face_medical 2;
     isOuroboros := false; isBarrier := false; immediateOnReveal := false |}.

Definition SPORE_INFESTATION : ThreatCard :=
  {| card_id := "spore-infestation"; name := "Spore: Infestation";
     kind := internal; activation := alien; maxHealth := 0;
     description := "ACTIVATE: Send 2 crew to the Infirmary.";
     resolution := requires face_medical 1;
     isOuroboros := false; isBarrier := false; immediateOnReveal := false |}.

Definition ROBOT_UPRISING : ThreatCard :=
  {| card_id := "robot-uprising"; name := "Robot Uprising"; kind := internal;
     activation := warning; maxHealth := 0;
     description := "ACTIVATE: Send 2 crew to the Infirmary.";
     resolution := requires face_tactical 2;
     isOuroboros := false; isBarrier := false; immediateOnReveal := false |}.

Definition COMMS_OFFLINE : ThreatCard :=
  {| card_id := "comms-offline"; name := "Comms Offline"; kind := internal;
     activation := lightning; maxHealth := 0;
     description := "While in play: Commander station is disabled. ACTIVATE: Draw 1 extra threat card.";
     resolution := requires face_engineering 2;
     isOuroboros := false; isBarrier := false; immediateOnReveal := false |}.

Definition STRIKE_BOMBERS : ThreatCard :=
  {| card_id := "strike-bombers"; name := "Strike Bombers"; kind := external;
     activation := lightning; maxHealth := 3;
     description := "ACTIVATE: Deal 1 hull damage.";
     resolution := None;
     isOuroboros := false; isBarrier := false; immediateOnReveal := false |}.

Definition STRIKE_BOMBERS_2 : ThreatCard :=
  with_card_id "strike-bombers-2" STRIKE_BOMBERS.

Definition SCOUT : ThreatCard :=
  {| card_id := "scout"; name := "Scout"; kind := external;
     activation := hazard; maxHealth := 2;
     description := "ACTIVATE: Deal 1 shield damage (or 1 hull if shields are down).";
     resolution := None;
     isOuroboros := false; isBarrier := false; immediateOnReveal := false |}.

Definition SCOUT_2 : ThreatCard := with_card_id "scout-2" SCOUT.

Definition PIRATES : ThreatCard :=
  {| card_id := "pirates"; name := "Pirates"; kind := external;
     activation := skull; maxHealth := 4;
     description := "ACTIVATE: Deal 2 hull damage.";
     resolution := None;
     isOuroboros := false; isBarrier := false; immediateOnReveal := false |}.

Definition SPACE_PIRATES : ThreatCard :=
  {| card_id := "space-pirates"; name := "Space Pirates"; kind := external;
     activation := skull; maxHealth := 5;
     description := "ACTIVATE: Deal 2 hull damage and 1 shield damage.";
     resolution := None;
     isOuroboros := false; isBarrier := false; immediateOnReveal := false |}.

Definition ORBITAL_CANNON : ThreatCard :=
  {| card_id := "orbital-cannon"; name := "Orbital Cannon"; kind := external;
     activation := warning; maxHealth := 6;
     description := "Can only be targeted when it is the ONLY active external threat. ACTIVATE: Deal 3 hull damage.";
     resolution := None;
     isOuroboros := false; isBarrier := false; immediateOnReveal := false |}.

Definition SOLAR_WINDS_FLAGSHIP : ThreatCard :=
  {| card_id := "solar-winds-flagship"; name := "Solar Winds Flagship";
     kind := external; activation := skull; maxHealth := 1;
     description := "REVEAL: Immediately deal 5 hull damage, then discard.";
     resolution := None;
     isOuroboros := false; isBarrier := false; immediateOnReveal := true |}.

Definition HIJACKERS : ThreatCard :=
  {| card_id := "hijackers"; name := "Hijackers"; kind := external;
     activation := alien; maxHealth := 3;
     description := "ACTIVATE: Send 1 crew to the Infirmary.";
     resolution := None;
     isOuroboros := false; isBarrier := false; immediateOnReveal := false |}.

Definition OUROBOROS_BARRIER : ThreatCard :=
  {| card_id := "ouroboros-barrier"; name := "Ouroboros Barrier";
     kind := boss_barrier; activation := alien; maxHealth := 4;
     description := "Protects Ouroboros from all damage. When destroyed, Ouroboros can be attacked. ACTIVATE: Deal 2 hull damage and regenerate to full HP.";
     resolution := None;
     isOuroboros := false; isBarrier := true; immediateOnReveal := false |}.

Definition OUROBOROS : ThreatCard :=
  {| card_id := "ouroboros"; name := "Ouroboros"; kind := external;
     activation := alien; maxHealth := 8;
     description := "Final boss. Cannot be damaged while the Ouroboros Barrier is active. ACTIVATE: Deal 3 hull damage.";
     resolution := None;
     isOuroboros := true; isBarrier := false; immediateOnReveal := false |}.

(** All non-Ouroboros, non-filler cards (always in deck). *)
Definition CORE_CARDS : list ThreatCard :=
  [ PANEL_EXPLOSION; PANEL_EXPLOSION; DISTRACTED; DISTRACTED_2; DISTRACTED_3;
    FRIENDLY_FIRE; FRIENDLY_FIRE; BOOST_MORALE; NEBULA; TIME_WARP; PANDEMIC;
    SPORE_INFESTATION; ROBOT_UPRISING; COMMS_OFFLINE;
    STRIKE_BOMBERS; STRIKE_BOMBERS_2; SCOUT; SCOUT_2; PIRATES; SPACE_PIRATES;
    ORBITAL_CANNON; SOLAR_WINDS_FLAGSHIP; HIJACKERS;
    OUROBOROS_BARRIER ].

(** [[arr[i], arr[j]] = [arr[j], arr[i]]].  Both indices are in range at
    every call of the source; out of range the model leaves the array alone. *)
Definition swap {A} (arr : list A) (i j : nat) : list A :=
  match arr !! i, arr !! j with
  | Some x, Some y => <[j := x]> (<[i := y]> arr)
  | _, _ => arr
  end.

(** [for (let i = arr.length - 1; i > 0; i--) { j = ...; swap }] *)
Fixpoint shuffle_loop {A} (i : nat) (arr : list A) : M (list A) :=
  match i with
  | O => mret arr
  | S i' =>
      j ← randomIndex (i + 1);
      shuffle_loop i' (swap arr i j)
  end.

Definition shuffle {A} (items : list A) : M (list A) :=
  shuffle_loop (length items - 1) items.

(** Build and shuffle the threat deck for the given difficulty.
    Ouroboros is always the last card in the deck. *)
Definition buildDeck (difficulty : Difficulty) : M (list ThreatCard) :=
  let dontPanicCount := DONT_PANIC_COUNTS difficulty in
  let dontPanics := replicate dontPanicCount DON_T_PANIC in
  mainDeck ← shuffle (CORE_CARDS ++ dontPanics);
  mret (mainDeck ++ [OUROBOROS]).

(** Draw the top card from the deck; [None] is the source's [null]. *)
Definition drawCard (deck : list ThreatCard)
  : option (ThreatCard * list ThreatCard) :=
  match deck with
  | [] => None
  | card :: rest => Some (card, rest)
  end.

(** ** [GameState] ([src/types/game.ts], with the two fields the reducer adds) *)

Record GameState := {
  status : GameStatus;
  phase : TurnPhase;
  difficulty : Difficulty;
  hull : Z;
  maxHull : Z;
  shields : Z;
  maxShields : Z;
  crew : list CrewDie;
  activeThreats : list ActiveThreat;
  deck : list ThreatCard;
  discard : list ThreatCard;
  threatDieFace : option ThreatSymbol;
  selectedDieId : option Z;
  tacticalDice : list Z;
  log : list string;
  lossReason : option LossReason;
  turnNumber : Z;
  elapsedSeconds : Z;
  drawnCard : option ThreatCard;
  nebulaActive : bool;
  commsOfflineActive : bool;
  setupDrawsRemaining : Z;
  usedStationActions : list string
}.

(** One setter per field: [s <| set_hull := h |>] is [{ ...s, hull: h }]. *)
Definition set_status (v : GameStatus) (s : GameState) : GameState :=
  {| status := v; phase := phase s; difficulty := difficulty s; hull := hull
  s; maxHull := maxHull s; shields := shields s; maxShields := maxShields s;
  crew := crew s; activeThreats := activeThreats s; deck := deck s; discard
  := discard s; threatDieFace := threatDieFace s; selectedDieId :=
  selectedDieId s; tacticalDice := tacticalDice s; log := log s; lossReason
  := lossReason s; turnNumber := turnNumber s; elapsedSeconds :=
  elapsedSeconds s; drawnCard := drawnCard s; nebulaActive := nebulaActive
  s; commsOfflineActive := commsOfflineActive s; setupDrawsRemaining :=
  setupDrawsRemaining s; usedStationActions := usedStationActions s |}.
Definition set_phase (v : TurnPhase) (s : GameState) : GameState :=
  {| status := status s; phase := v; difficulty := difficulty s; hull :=
  hull s; maxHull := maxHull s; shields := shields s; maxShields :=
  maxShields s; crew := crew s; activeThreats := activeThreats s; deck :=
  deck s; discard := discard s; threatDieFace := threatDieFace s;
  selectedDieId := selectedDieId s; tacticalDice := tacticalDice s; log :=
  log s; lossReason := lossReason s; turnNumber := turnNumber s;
  elapsedSeconds := elapsedSeconds s; drawnCard := drawnCard s; nebulaActive
  := nebulaActive s; commsOfflineActive := commsOfflineActive s;
  setupDrawsRemaining := setupDrawsRemaining s; usedStationActions :=
  usedStationActions s |}.
Definition set_difficulty (v : Difficulty) (s : GameState) : GameState :=
  {| status := status s; phase := phase s; difficulty := v; hull := hull s;
  maxHull := maxHull s; shields := shields s; maxShields := maxShields s;
  crew := crew s; activeThreats := activeThreats s; deck := deck s; discard
  := discard s; threatDieFace := threatDieFace s; selectedDieId :=
  selectedDieId s; tacticalDice := tacticalDice s; log := log s; lossReason
  := lossReason s; turnNumber := turnNumber s; elapsedSeconds :=
  elapsedSeconds s; drawnCard := drawnCard s; nebulaActive := nebulaActive
  s; commsOfflineActive := commsOfflineActive s; setupDrawsRemaining :=
  setupDrawsRemaining s; usedStationActions := usedStationActions s |}.
Definition set_hull (v : Z) (s : GameState) : GameState :=
  {| status := status s; phase := phase s; difficulty := difficulty s; hull
  := v; maxHull := maxHull s; shields := shields s; maxShields := maxShields
  s; crew := crew s; activeThreats := activeThreats s; deck := deck s;
  discard := discard s; threatDieFace := threatDieFace s; selectedDieId :=
  selectedDieId s; tacticalDice := tacticalDice s; log := log s; lossReason
  := lossReason s; turnNumber := turnNumber s; elapsedSeconds :=
  elapsedSeconds s; drawnCard := drawnCard s; nebulaActive := nebulaActive
  s; commsOfflineActive := commsOfflineActive s; setupDrawsRemaining :=
  setupDrawsRemaining s; usedStationActions := usedStationActions s |}.
Definition set_maxHull (v : Z) (s : GameState) : GameState :=
  {| status := status s; phase := phase s; difficulty := difficulty s; hull
  := hull s; maxHull := v; shields := shields s; maxShields := maxShields s;
  crew := crew s; activeThreats := activeThreats s; deck := deck s; discard
  := discard s; threatDieFace := threatDieFace s; selectedDieId :=
  selectedDieId s; tacticalDice := tacticalDice s; log := log s; lossReason
  := lossReason s; turnNumber := turnNumber s; elapsedSeconds :=
  elapsedSeconds s; drawnCard := drawnCard s; nebulaActive := nebulaActive
  s; commsOfflineActive := commsOfflineActive s; setupDrawsRemaining :=
  setupDrawsRemaining s; usedStationActions := usedStationActions s |}.
Definition set_shields (v : Z) (s : GameState) : GameState :=
  {| status := status s; phase := phase s; difficulty := difficulty s; hull
  := hull s; maxHull := maxHull s; shields := v; maxShields := maxShields s;
  crew := crew s; activeThreats := activeThreats s; deck := deck s; discard
  := discard s; threatDieFace := threatDieFace s; selectedDieId :=
  selectedDieId s; tacticalDice := tacticalDice s; log := log s; lossReason
  := lossReason s; turnNumber := turnNumber s; elapsedSeconds :=
  elapsedSeconds s; drawnCard := drawnCard s; nebulaActive := nebulaActive
  s; commsOfflineActive := commsOfflineActive s; setupDrawsRemaining :=
  setupDrawsRemaining s; usedStationActions := usedStationActions s |}.
Definition set_maxShields (v : Z) (s : GameState) : GameState :=
  {| status := status s; phase := phase s; difficulty := difficulty s; hull
  := hull s; maxHull := maxHull s; shields := shields s; maxShields := v;
  crew := crew s; activeThreats := activeThreats s; deck := deck s; discard
  := discard s; threatDieFace := threatDieFace s; selectedDieId :=
  selectedDieId s; tacticalDice := tacticalDice s; log := log s; lossReason
  := lossReason s; turnNumber := turnNumber s; elapsedSeconds :=
  elapsedSeconds s; drawnCard := drawnCard s; nebulaActive := nebulaActive
  s; commsOfflineActive := commsOfflineActive s; setupDrawsRemaining :=
  setupDrawsRemaining s; usedStationActions := usedStationActions s |}.
Definition set_crew (v : list CrewDie) (s : GameState) : GameState :=
  {| status := status s; phase := phase s; difficulty := difficulty s; hull
  := hull s; maxHull := maxHull s; shields := shields s; maxShields :=
  maxShields s; crew := v; activeThreats := activeThreats s; deck := deck s;
  discard := discard s; threatDieFace := threatDieFace s; selectedDieId :=
  selectedDieId s; tacticalDice := tacticalDice s; log := log s; lossReason
  := lossReason s; turnNumber := turnNumber s; elapsedSeconds :=
  elapsedSeconds s; drawnCard := drawnCard s; nebulaActive := nebulaActive
  s; commsOfflineActive := commsOfflineActive s; setupDrawsRemaining :=
  setupDrawsRemaining s; usedStationActions := usedStationActions s |}.
Definition set_activeThreats (v : list ActiveThreat) (s : GameState) : GameState :=
  {| status := status s; phase := phase s; difficulty := difficulty s; hull
  := hull s; maxHull := maxHull s; shields := shields s; maxShields :=
  maxShields s; crew := crew s; activeThreats := v; deck := deck s; discard
  := discard s; threatDieFace := threatDieFace s; selectedDieId :=
  selectedDieId s; tacticalDice := tacticalDice s; log := log s; lossReason
  := lossReason s; turnNumber := turnNumber s; elapsedSeconds :=
  elapsedSeconds s; drawnCard := drawnCard s; nebulaActive := nebulaActive
  s; commsOfflineActive := commsOfflineActive s; setupDrawsRemaining :=
  setupDrawsRemaining s; usedStationActions := usedStationActions s |}.
Definition set_deck (v : list ThreatCard) (s : GameState) : GameState :=
  {| status := status s; phase := phase s; difficulty := difficulty s; hull
  := hull s; maxHull := maxHull s; shields := shields s; maxShields :=
  maxShields s; crew := crew s; activeThreats := activeThreats s; deck := v;
  discard := discard s; threatDieFace := threatDieFace s; selectedDieId :=
  selectedDieId s; tacticalDice := tacticalDice s; log := log s; lossReason
  := lossReason s; turnNumber := turnNumber s; elapsedSeconds :=
  elapsedSeconds s; drawnCard := drawnCard s; nebulaActive := nebulaActive
  s; commsOfflineActive := commsOfflineActive s; setupDrawsRemaining :=
  setupDrawsRemaining s; usedStationActions := usedStationActions s |}.
Definition set_discard (v : list ThreatCard) (s : GameState) : GameState :=
  {| status := status s; phase := phase s; difficulty := difficulty s; hull
  := hull s; maxHull := maxHull s; shields := shields s; maxShields :=
  maxShields s; crew := crew s; activeThreats := activeThreats s; deck :=
  deck s; discard := v; threatDieFace := threatDieFace s; selectedDieId :=
  selectedDieId s; tacticalDice := tacticalDice s; log := log s; lossReason
  := lossReason s; turnNumber := turnNumber s; elapsedSeconds :=
  elapsedSeconds s; drawnCard := drawnCard s; nebulaActive := nebulaActive
  s; commsOfflineActive := commsOfflineActive s; setupDrawsRemaining :=
  setupDrawsRemaining s; usedStationActions := usedStationActions s |}.
Definition set_threatDieFace (v : option ThreatSymbol) (s : GameState) : GameState :=
  {| status := status s; phase := phase s; difficulty := difficulty s; hull
  := hull s; maxHull := maxHull s; shields := shields s; maxShields :=
  maxShields s; crew := crew s; activeThreats := activeThreats s; deck :=
  deck s; discard := discard s; threatDieFace := v; selectedDieId :=
  selectedDieId s; tacticalDice := tacticalDice s; log := log s; lossReason
  := lossReason s; turnNumber := turnNumber s; elapsedSeconds :=
  elapsedSeconds s; drawnCard := drawnCard s; nebulaActive := nebulaActive
  s; commsOfflineActive := commsOfflineActive s; setupDrawsRemaining :=
  setupDrawsRemaining s; usedStationActions := usedStationActions s |}.
Definition set_selectedDieId (v : option Z) (s : GameState) : GameState :=
  {| status := status s; phase := phase s; difficulty := difficulty s; hull
  := hull s; maxHull := maxHull s; shields := shields s; maxShields :=
  maxShields s; crew := crew s; activeThreats := activeThreats s; deck :=
  deck s; discard := discard s; threatDieFace := threatDieFace s;
  selectedDieId := v; tacticalDice := tacticalDice s; log := log s;
  lossReason := lossReason s; turnNumber := turnNumber s; elapsedSeconds :=
  elapsedSeconds s; drawnCard := drawnCard s; nebulaActive := nebulaActive
  s; commsOfflineActive := commsOfflineActive s; setupDrawsRemaining :=
  setupDrawsRemaining s; usedStationActions := usedStationActions s |}.
Definition set_tacticalDice (v : list Z) (s : GameState) : GameState :=
  {| status := status s; phase := phase s; difficulty := difficulty s; hull
  := hull s; maxHull := maxHull s; shields := shields s; maxShields :=
  maxShields s; crew := crew s; activeThreats := activeThreats s; deck :=
  deck s; discard := discard s; threatDieFace := threatDieFace s;
  selectedDieId := selectedDieId s; tacticalDice := v; log := log s;
  lossReason := lossReason s; turnNumber := turnNumber s; elapsedSeconds :=
  elapsedSeconds s; drawnCard := drawnCard s; nebulaActive := nebulaActive
  s; commsOfflineActive := commsOfflineActive s; setupDrawsRemaining :=
  setupDrawsRemaining s; usedStationActions := usedStationActions s |}.
Definition set_log (v : list string) (s : GameState) : GameState :=
  {| status := status s; phase := phase s; difficulty := difficulty s; hull
  := hull s; maxHull := maxHull s; shields := shields s; maxShields :=
  maxShields s; crew := crew s; activeThreats := activeThreats s; deck :=
  deck s; discard := discard s; threatDieFace := threatDieFace s;
  selectedDieId := selectedDieId s; tacticalDice := tacticalDice s; log :=
  v; lossReason := lossReason s; turnNumber := turnNumber s; elapsedSeconds
  := elapsedSeconds s; drawnCard := drawnCard s; nebulaActive :=
  nebulaActive s; commsOfflineActive := commsOfflineActive s;
  setupDrawsRemaining := setupDrawsRemaining s; usedStationActions :=
  usedStationActions s |}.
Definition set_lossReason (v : option LossReason) (s : GameState) : GameState :=
  {| status := status s; phase := phase s; difficulty := difficulty s; hull
  := hull s; maxHull := maxHull s; shields := shields s; maxShields :=
  maxShields s; crew := crew s; activeThreats := activeThreats s; deck :=
  deck s; discard := discard s; threatDieFace := threatDieFace s;
  selectedDieId := selectedDieId s; tacticalDice := tacticalDice s; log :=
  log s; lossReason := v; turnNumber := turnNumber s; elapsedSeconds :=
  elapsedSeconds s; drawnCard := drawnCard s; nebulaActive := nebulaActive
  s; commsOfflineActive := commsOfflineActive s; setupDrawsRemaining :=
  setupDrawsRemaining s; usedStationActions := usedStationActions s |}.
Definition set_turnNumber (v : Z) (s : GameState) : GameState :=
  {| status := status s; phase := phase s; difficulty := difficulty s; hull
  := hull s; maxHull := maxHull s; shields := shields s; maxShields :=
  maxShields s; crew := crew s; activeThreats := activeThreats s; deck :=
  deck s; discard := discard s; threatDieFace := threatDieFace s;
  selectedDieId := selectedDieId s; tacticalDice := tacticalDice s; log :=
  log s; lossReason := lossReason s; turnNumber := v; elapsedSeconds :=
  elapsedSeconds s; drawnCard := drawnCard s; nebulaActive := nebulaActive
  s; commsOfflineActive := commsOfflineActive s; setupDrawsRemaining :=
  setupDrawsRemaining s; usedStationActions := usedStationActions s |}.
Definition set_elapsedSeconds (v : Z) (s : GameState) : GameState :=
  {| status := status s; phase := phase s; difficulty := difficulty s; hull
  := hull s; maxHull := maxHull s; shields := shields s; maxShields :=
  maxShields s; crew := crew s; activeThreats := activeThreats s; deck :=
  deck s; discard := discard s; threatDieFace := threatDieFace s;
  selectedDieId := selectedDieId s; tacticalDice := tacticalDice s; log :=
  log s; lossReason := lossReason s; turnNumber := turnNumber s;
  elapsedSeconds := v; drawnCard := drawnCard s; nebulaActive :=
  nebulaActive s; commsOfflineActive := commsOfflineActive s;
  setupDrawsRemaining := setupDrawsRemaining s; usedStationActions :=
  usedStationActions s |}.
Definition set_drawnCard (v : option ThreatCard) (s : GameState) : GameState :=
  {| status := status s; phase := phase s; difficulty := difficulty s; hull
  := hull s; maxHull := maxHull s; shields := shields s; maxShields :=
  maxShields s; crew := crew s; activeThreats := activeThreats s; deck :=
  deck s; discard := discard s; threatDieFace := threatDieFace s;
  selectedDieId := selectedDieId s; tacticalDice := tacticalDice s; log :=
  log s; lossReason := lossReason s; turnNumber := turnNumber s;
  elapsedSeconds := elapsedSeconds s; drawnCard := v; nebulaActive :=
  nebulaActive s; commsOfflineActive := commsOfflineActive s;
  setupDrawsRemaining := setupDrawsRemaining s; usedStationActions :=
  usedStationActions s |}.
Definition set_nebulaActive (v : bool) (s : GameState) : GameState :=
  {| status := status s; phase := phase s; difficulty := difficulty s; hull
  := hull s; maxHull := maxHull s; shields := shields s; maxShields :=
  maxShields s; crew := crew s; activeThreats := activeThreats s; deck :=
  deck s; discard := discard s; threatDieFace := threatDieFace s;
  selectedDieId := selectedDieId s; tacticalDice := tacticalDice s; log :=
  log s; lossReason := lossReason s; turnNumber := turnNumber s;
  elapsedSeconds := elapsedSeconds s; drawnCard := drawnCard s; nebulaActive
  := v; commsOfflineActive := commsOfflineActive s; setupDrawsRemaining :=
  setupDrawsRemaining s; usedStationActions := usedStationActions s |}.
Definition set_commsOfflineActive (v : bool) (s : GameState) : GameState :=
  {| status := status s; phase := phase s; difficulty := difficulty s; hull
  := hull s; maxHull := maxHull s; shields := shields s; maxShields :=
  maxShields s; crew := crew s; activeThreats := activeThreats s; deck :=
  deck s; discard := discard s; threatDieFace := threatDieFace s;
  selectedDieId := selectedDieId s; tacticalDice := tacticalDice s; log :=
  log s; lossReason := lossReason s; turnNumber := turnNumber s;
  elapsedSeconds := elapsedSeconds s; drawnCard := drawnCard s; nebulaActive
  := nebulaActive s; commsOfflineActive := v; setupDrawsRemaining :=
  setupDrawsRemaining s; usedStationActions := usedStationActions s |}.
Definition set_setupDrawsRemaining (v : Z) (s : GameState) : GameState :=
  {| status := status s; phase := phase s; difficulty := difficulty s; hull
  := hull s; maxHull := maxHull s; shields := shields s; maxShields :=
  maxShields s; crew := crew s; activeThreats := activeThreats s; deck :=
  deck s; discard := discard s; threatDieFace := threatDieFace s;
  selectedDieId := selectedDieId s; tacticalDice := tacticalDice s; log :=
  log s; lossReason := lossReason s; turnNumber := turnNumber s;
  elapsedSeconds := elapsedSeconds s; drawnCard := drawnCard s; nebulaActive
  := nebulaActive s; commsOfflineActive := commsOfflineActive s;
  setupDrawsRemaining := v; usedStationActions := usedStationActions s |}.
Definition set_usedStationActions (v : list string) (s : GameState) : GameState :=
  {| status := status s; phase := phase s; difficulty := difficulty s; hull
  := hull s; maxHull := maxHull s; shields := shields s; maxShields :=
  maxShields s; crew := crew s; activeThreats := activeThreats s; deck :=
  deck s; discard := discard s; threatDieFace := threatDieFace s;
  selectedDieId := selectedDieId s; tacticalDice := tacticalDice s; log :=
  log s; lossReason := lossReason s; turnNumber := turnNumber s;
  elapsedSeconds := elapsedSeconds s; drawnCard := drawnCard s; nebulaActive
  := nebulaActive s; commsOfflineActive := commsOfflineActive s;
  setupDrawsRemaining := setupDrawsRemaining s; usedStationActions := v |}.

Notation "s <| f := v |>" := (f v s)
  (at level 1, f at level 0, left associativity, only parsing).

(** ** Array helpers of the source language *)

(** [arr.find(p)] and [arr.findIndex(p)]; [None] is [undefined] / [-1]. *)
Definition find_by {A} (P : A → Prop) `{∀ x, Decision (P x)} (l : list A)
  : option A := snd <$> list_find P l.

Definition findIndex {A} (P : A → Prop) `{∀ x, Decision (P x)} (l : list A)
  : option nat := fst <$> list_find P l.

(** [str.includes(sub)] *)
Definition includes (sub s : string) : bool :=
  match String.index 0 sub s with Some _ => true | None => false end.

(** [arr.sort(cmp)]: the sort of the language is stable; a stable insertion
    sort with the comparator of the source ([cmp a b <= 0] keeps [a] first). *)
Fixpoint insert_sorted {A} (cmp : A → A → Z) (x : A) (l : list A) : list A :=
  match l with
  | [] => [x]
  | y :: l' =>
      if cmp x y <=? 0 then x :: y :: l' else y :: insert_sorted cmp x l'
  end.

Definition sort_by {A} (cmp : A → A → Z) (l : list A) : list A :=
  foldr (insert_sorted cmp) [] l.

(** ** [src/logic/threats.ts] *)

Definition createActiveThreat (c : ThreatCard) : M ActiveThreat :=
  n ← nextInstance;
  mret {| threat_id := card_id c +:+ "-" +:+ pretty n;
          card := c;
          health := maxHealth c;
          stasisTokens := 0;
          awayMission := [];
          isDestroyed := false |}.

(** Can the given external threat be targeted by tactical fire? *)
Definition canTargetThreat (threat : ActiveThreat)
    (allThreats : list ActiveThreat) : bool :=
  if bool_decide (kind (card threat) ≠ external)
     && bool_decide (kind (card threat) ≠ boss_barrier) then false
  else if isDestroyed threat then false
  else if String.eqb (card_id (card threat)) "orbital-cannon" then
    let otherExternal :=
      filter (λ t, threat_id t ≠ threat_id threat
                   ∧ (kind (card t) = external ∨ kind (card t) = boss_barrier)
                   ∧ isDestroyed t = false) allThreats in
    bool_decide (length otherExternal = 0%nat)
  else if isOuroboros (card threat) then
    let barrier :=
      find_by (λ t, isBarrier (card t) = true ∧ isDestroyed t = false)
              allThreats in
    bool_decide (barrier = None)
  else true.

(** Apply tactical damage to a specific threat. Returns updated threat list. *)
Definition applyTacticalDamage (threats : list ActiveThreat)
    (targetId : string) (damage : Z) (timeWarpActive : bool)
  : list ActiveThreat :=
  (λ t,
     if bool_decide (threat_id t ≠ targetId) then t
     else
       let newHealth := health t - damage in
       let newHealth :=
         if timeWarpActive && negb (isOuroboros (card t))
         then Z.max 1 newHealth else newHealth in
       let newHealth := Z.max 0 newHealth in
       with_health newHealth (bool_decide (newHealth = 0)) t) <$> threats.

Record ActivationResult := {
  ar_hull : Z;
  ar_shields : Z;
  ar_threats : list ActiveThreat;
  ar_crew : list CrewDie;
  ar_log : list string;
  ar_extraDraw : bool
}.

(** The assignments of the activation loop to its local variables. *)
Definition ar_setThreats (ts : list ActiveThreat) (r : ActivationResult) :=
  {| ar_hull := ar_hull r; ar_shields := ar_shields r; ar_threats := ts;
     ar_crew := ar_crew r; ar_log := ar_log r;
     ar_extraDraw := ar_extraDraw r |}.

Definition ar_setCrew (c : list CrewDie) (r : ActivationResult) :=
  {| ar_hull := ar_hull r; ar_shields := ar_shields r;
     ar_threats := ar_threats r; ar_crew := c; ar_log := ar_log r;
     ar_extraDraw := ar_extraDraw r |}.

Definition ar_setLog (l : list string) (r : ActivationResult) :=
  {| ar_hull := ar_hull r; ar_shields := ar_shields r;
     ar_threats := ar_threats r; ar_crew := ar_crew r; ar_log := l;
     ar_extraDraw := ar_extraDraw r |}.

Definition ar_pushLog (l : list string) (r : ActivationResult) :=
  ar_setLog (ar_log r ++ l) r.

Definition ar_setExtraDraw (b : bool) (r : ActivationResult) :=
  {| ar_hull := ar_hull r; ar_shields := ar_shields r;
     ar_threats := ar_threats r; ar_crew := ar_crew r; ar_log := ar_log r;
     ar_extraDraw := b |}.

(** [const dmg = applyDamage(hull, shields, h, s); hull = dmg.hull;
    shields = dmg.shields; log.push(...dmg.log)] *)
Definition ar_damage (hullDmg shieldDmg : Z) (r : ActivationResult) :=
  let dmg := applyDamage (ar_hull r) (ar_shields r) hullDmg shieldDmg in
  {| ar_hull := sd_hull dmg; ar_shields := sd_shields dmg;
     ar_threats := ar_threats r; ar_crew := ar_crew r;
     ar_log := ar_log r ++ sd_log dmg;
     ar_extraDraw := ar_extraDraw r |}.

(** The loop of [sendToInfirmary]: the copy is walked from the front while
    [sent < count]; returns the copy and the final [sent]. *)
Fixpoint sendToInfirmary_loop (result : list CrewDie) (count sent : Z)
  : list CrewDie * Z :=
  match result with
  | [] => ([], sent)
  | d :: rest =>
      if bool_decide (sent < count) then
        if bool_decide (location d = pool) then
          let '(rest', sent') := sendToInfirmary_loop rest count (sent + 1) in
          (with_location (at_station st_infirmary) d :: rest', sent')
        else
          let '(rest', sent') := sendToInfirmary_loop rest count sent in
          (d :: rest', sent')
      else (d :: rest, sent)
  end.

(** Send up to [count] crew from pool to infirmary.  The source mutates
    [log]; the model returns the extended log. *)
Definition sendToInfirmary (crew : list CrewDie) (count : Z)
    (log : list string) : list CrewDie * list string :=
  let '(result, sent) := sendToInfirmary_loop crew count 0 in
  (result,
   if bool_decide (0 < sent)
   then log ++ [pretty sent +:+ " crew sent to Infirmary."] else log).

Definition ar_sendToInfirmary (count : Z) (r : ActivationResult) :=
  let '(crew, log) := sendToInfirmary (ar_crew r) count (ar_log r) in
  ar_setLog log (ar_setCrew crew r).

(** The [switch (threat.card.id)] of the activation loop. *)
Definition activationEffect (threat : ActiveThreat) (r : ActivationResult)
  : ActivationResult :=
  let i := card_id (card threat) in
  if String.eqb i "panel-explosion" then ar_sendToInfirmary 1 r
  else if String.eqb i "distracted" || String.eqb i "distracted-2"
          || String.eqb i "distracted-3" then
    (* Free any die locked on this card, discard the threat *)
    let crew :=
      (λ d, if bool_decide (location d = on_threat (threat_id threat))
            then with_location pool d else d) <$> ar_crew r in
    let threats :=
      filter (λ t, threat_id t ≠ threat_id threat) (ar_threats r) in
    ar_pushLog ["Distracted crew member returns to duty."]
      (ar_setThreats threats (ar_setCrew crew r))
  else if String.eqb i "friendly-fire" then ar_damage 1 0 r
  else if String.eqb i "boost-morale" then
    let inInfirmary :=
      filter (λ d, location d = at_station st_infirmary) (ar_crew r) in
    match inInfirmary with
    | first :: _ =>
        let crew :=
          (λ d, if bool_decide (die_id d = die_id first)
                then with_location pool d else d) <$> ar_crew r in
        ar_pushLog ["Morale boost! 1 crew recovered from Infirmary."]
          (ar_setCrew crew r)
    | [] => ar_pushLog ["Boost Morale: no crew in Infirmary."] r
    end
  else if String.eqb i "nebula" then ar_damage 0 1 r
  else if String.eqb i "time-warp" then
    ar_pushLog ["Time Warp: top discard cards shuffled back into deck."] r
  else if String.eqb i "pandemic" then
    let poolCrew := filter (λ d, location d = pool) (ar_crew r) in
    let crew :=
      (λ d, if bool_decide (location d = pool)
            then with_location (at_station st_infirmary) d else d)
        <$> ar_crew r in
    ar_pushLog ["Pandemic! " +:+ pretty (length poolCrew)
                  +:+ " crew sent to Infirmary."]
      (ar_setCrew crew r)
  else if String.eqb i "spore-infestation" then ar_sendToInfirmary 2 r
  else if String.eqb i "robot-uprising" then ar_sendToInfirmary 2 r
  else if String.eqb i "comms-offline" then
    ar_pushLog ["Comms Offline: draw 1 extra threat card this turn."]
      (ar_setExtraDraw true r)
  else if String.eqb i "strike-bombers" || String.eqb i "strike-bombers-2"
    then ar_damage 1 0 r
  else if String.eqb i "scout" || String.eqb i "scout-2" then ar_damage 0 1 r
  else if String.eqb i "pirates" then ar_damage 2 0 r
  else if String.eqb i "space-pirates" then ar_damage 2 1 r
  else if String.eqb i "orbital-cannon" then ar_damage 3 0 r
  else if String.eqb i "hijackers" then ar_sendToInfirmary 1 r
  else if String.eqb i "ouroboros" then ar_damage 3 0 r
  else r.

(** One iteration of [for (const threat of ordered)]. *)
Definition activateOne (rolledFace : ThreatSymbol) (r : ActivationResult)
    (threat : ActiveThreat) : ActivationResult :=
  if bool_decide (kind (card threat) = filler) then r
  else if bool_decide (activation (card threat) ≠ rolledFace) then r
  else if isDestroyed threat && negb (isBarrier (card threat)) then r
  else
    (* Check stasis *)
    match find_by (λ t, threat_id t = threat_id threat) (ar_threats r) with
    | None => r
    | Some current =>
        if bool_decide (0 < stasisTokens current) then
          ar_pushLog
            [name (card threat) +:+ " activation suppressed by stasis token."]
            (ar_setThreats
               ((λ t, if bool_decide (threat_id t = threat_id threat)
                      then with_stasisTokens (stasisTokens t - 1) t else t)
                  <$> ar_threats r) r)
        else
          let r := ar_pushLog [name (card threat) +:+ " activates!"] r in
          if isBarrier (card threat) then
            (* Barrier: regenerate + deal damage *)
            let r :=
              ar_setThreats
                ((λ t, if bool_decide (threat_id t = threat_id threat)
                       then with_health (maxHealth (card t)) false t else t)
                   <$> ar_threats r) r in
            ar_pushLog ["Ouroboros Barrier regenerated to full health!"]
              (ar_damage 2 0 r)
          else activationEffect threat r
    end.

(** Sort: internal first, then external/boss *)
Definition internalFirst (a b : ActiveThreat) : Z :=
  let aInternal := if bool_decide (kind (card a) = internal) then 0 else 1 in
  let bInternal := if bool_decide (kind (card b) = internal) then 0 else 1 in
  aInternal - bInternal.

(** Activate all threats whose activation symbol matches the rolled face. *)
Definition activateThreats (state : GameState) (rolledFace : ThreatSymbol)
  : ActivationResult :=
  let init :=
    {| ar_hull := hull state; ar_shields := shields state;
       ar_threats := activeThreats state; ar_crew := crew state;
       ar_log := []; ar_extraDraw := false |} in
  let ordered := sort_by internalFirst (activeThreats state) in
  foldl (activateOne rolledFace) init ordered.

(** Check if all external threats are destroyed and deck is empty. *)
Definition checkWin {A} (deck : list A) (activeThreats : list ActiveThreat)
  : bool :=
  if bool_decide (0 < length deck)%nat then false
  else
    let remaining :=
      filter (λ t, (kind (card t) = external ∨ isOuroboros (card t) = true
                    ∨ isBarrier (card t) = true)
                   ∧ isDestroyed t = false) activeThreats in
    bool_decide (length remaining = 0%nat).

(** [location.startsWith('threat-')] *)
Definition startsWith_threat (l : DieLocation) : bool :=
  match l with on_threat _ => true | _ => false end.

(** Check if player has lost due to no available crew. *)
Definition checkCrewLoss (crew : list CrewDie) : bool :=
  forallb (λ d, bool_decide (location d = at_station st_infirmary)
                || bool_decide (location d = at_station st_scanners)
                || startsWith_threat (location d)) crew.

(** ** [src/logic/stations.ts] *)

(** Collect all dice currently assigned to a station. *)
Definition getDiceAtStation (crew : list CrewDie) (stationId : StationId)
  : list CrewDie :=
  filter (λ d, location d = at_station stationId) crew.

(** Count dice at a station. *)
Definition countAtStation (crew : list CrewDie) (stationId : StationId) : nat :=
  length (getDiceAtStation crew stationId).

(** Repair hull by +1 per engineering die. Capped at maxHull. *)
Definition resolveEngineering (hull maxHull engineeringDiceCount : Z) : Z :=
  Z.min maxHull (hull + engineeringDiceCount).

(** Return all crew from Infirmary to pool. *)
Definition resolveMedical (crew : list CrewDie) : list CrewDie :=
  (λ d, if bool_decide (location d = at_station st_infirmary)
        then with_location pool d else d) <$> crew.

(** Release one die from Scanners back to pool (Medical alternative action).
    The flag [released] of the source is set at the first scanner die. *)
Fixpoint releaseFromScanners_from (released : bool) (crew : list CrewDie)
  : list CrewDie :=
  match crew with
  | [] => []
  | d :: rest =>
      if negb released && bool_decide (location d = at_station st_scanners)
      then with_location pool d :: releaseFromScanners_from true rest
      else d :: releaseFromScanners_from released rest
  end.

Definition releaseFromScanners (crew : list CrewDie) : list CrewDie :=
  releaseFromScanners_from false crew.

(** Recharge shields to maxShields. Only if Nebula is not active. *)
Definition resolveScience (maxShields : Z) : Z := maxShields.

(** Place a stasis token on a threat card. *)
Definition placeStasisToken (threats : list ActiveThreat) (threatId : string)
  : list ActiveThreat :=
  (λ t, if bool_decide (threat_id t = threatId)
        then with_stasisTokens (stasisTokens t + 1) t else t) <$> threats.

(** Change a specific die to a new face. *)
Definition commanderChangeDie (crew : list CrewDie) (dieId : Z)
    (newFace : CrewFace) : list CrewDie :=
  (λ d, if bool_decide (die_id d = dieId) then with_face newFace d else d)
    <$> crew.

(** Number of dice currently in the pool (not assigned). *)
Definition commanderRerollCount (crew : list CrewDie) : nat :=
  length (filter (λ d, location d = pool) crew).

(** Check if enough matching dice are placed on the threat's away mission
    to resolve it. *)
Definition isThreatResolved (threat : ActiveThreat) (crew : list CrewDie)
  : bool :=
  match resolution (card threat) with
  | None => false
  | Some req =>
      let assigned :=
        filter (λ d, location d = on_threat (threat_id threat)
                     ∧ face d = req_face req) crew in
      bool_decide (req_count req ≤ Z.of_nat (length assigned))
  end.

(** Remove a threat and return its assigned crew to pool. *)
Definition resolveThreat (threats : list ActiveThreat) (crew : list CrewDie)
    (threatId : string) : list ActiveThreat * list CrewDie :=
  let newCrew :=
    (λ d, if bool_decide (location d = on_threat threatId)
          then with_location pool d else d) <$> crew in
  let newThreats := filter (λ t, threat_id t ≠ threatId) threats in
  (newThreats, newCrew).

Record ScannersResult := {
  sc_crew : list CrewDie;
  sc_extraDraws : nat
}.

(** Process scanners: every 3 dice in scanners = draw 1 threat + release
    those 3 dice. *)
Definition processScanners (crew : list CrewDie) : ScannersResult :=
  let scannerDice := filter (λ d, location d = at_station st_scanners) crew in
  let groups := (length scannerDice / 3)%nat in
  if bool_decide (groups = 0%nat) then {| sc_crew := crew; sc_extraDraws := 0 |}
  else
    let toRelease := die_id <$> take (groups * 3) scannerDice in
    let newCrew :=
      (λ d, if bool_decide (die_id d ∈ toRelease)
            then with_location pool d else d) <$> crew in
    {| sc_crew := newCrew; sc_extraDraws := groups |}.

(** Return all assigned dice to pool, EXCEPT dice in 'infirmary', dice in
    'scanners', and dice locked on a threat card that is still active.  The
    [Set] of active ids is only asked for membership ([has]); the list of
    ids answers the same question. *)
Definition gatherCrew (crew : list CrewDie) (activeThreats : list ActiveThreat)
  : list CrewDie :=
  let activeThreatIds := threat_id <$> activeThreats in
  (λ d,
     if bool_decide (location d = at_station st_infirmary)
        || bool_decide (location d = at_station st_scanners) then d
     else
       match location d with
       | on_threat threatId =>
           if bool_decide (threatId ∈ activeThreatIds) then d
           else with_location pool d
       | _ => with_location pool d
       end) <$> crew.

(** Check if Nebula is among active internal threats. *)
Definition isNebulaActive (threats : list ActiveThreat) : bool :=
  existsb (λ t, String.eqb (card_id (card t)) "nebula"
                && negb (isDestroyed t)) threats.

(** Check if Comms Offline is among active internal threats. *)
Definition isCommsOfflineActive (threats : list ActiveThreat) : bool :=
  existsb (λ t, String.eqb (card_id (card t)) "comms-offline"
                && negb (isDestroyed t)) threats.

(** Check if Time Warp is among active internal threats. *)
Definition isTimeWarpActive (threats : list ActiveThreat) : bool :=
  existsb (λ t, String.eqb (card_id (card t)) "time-warp"
                && negb (isDestroyed t)) threats.

(** The stations that accept a die of a given face. *)
Definition stationForFace (f : CrewFace) : option StationId :=
  match f with
  | face_commander => Some st_commander
  | face_tactical => Some st_tactical
  | face_medical => Some st_medical
  | face_science => Some st_science
  | face_engineering => Some st_engineering
  | face_threat => Some st_scanners
  end.

(** Is a given die valid to assign to a given station?  The table is the
    object literal of the source, searched by key. *)
Definition canAssignToStation (die : CrewDie) (stationId : StationId)
    (commsOfflineActive : bool) : bool :=
  if bool_decide (location die ≠ pool) then false
  else if bool_decide (stationId = st_infirmary)
          || bool_decide (stationId = st_scanners) then false
  else if commsOfflineActive && bool_decide (stationId = st_commander)
    then false
  else
    let expectedFace :=
      snd <$> find_by (λ e, fst e = stationId)
        [ (st_commander, face_commander); (st_tactical, face_tactical);
          (st_medical, face_medical); (st_science, face_science);
          (st_engineering, face_engineering) ] in
    match expectedFace with
    | None => false
    | Some expected => bool_decide (face die = expected)
    end.

(** Can a die be assigned to a threat's away mission? *)
Definition canAssignToThreat (die : CrewDie) (threat : ActiveThreat)
    (state : GameState) : bool :=
  if bool_decide (phase state ≠ assigning) then false
  else if bool_decide (location die ≠ pool) then false
  else if bool_decide (kind (card threat) ≠ internal) then false
  else
    match resolution (card threat) with
    | None => false
    | Some req => bool_decide (face die = req_face req)
    end.

(** ** [src/state/reducer.ts] *)

(** [src/state/actions.ts]; [TEST_LOAD_STATE] is ['__TEST_LOAD_STATE']. *)
Inductive GameAction :=
  | NEW_GAME (difficulty : Difficulty)
  | TICK
  | START_ROLL
  | ROLL_COMPLETE (faces : list CrewFace)
  | SELECT_DIE (dieId : option Z)
  | ASSIGN_TO_STATION (dieId : Z) (stationId : StationId)
  | ASSIGN_TO_THREAT (dieId : Z) (threatId : string)
  | USE_ENGINEERING
  | USE_MEDICAL
  | USE_MEDICAL_SCANNERS
  | USE_TACTICAL (targetThreatId : string)
  | USE_SCIENCE_SHIELDS
  | USE_SCIENCE_STASIS (targetThreatId : string)
  | USE_COMMANDER_REROLL
  | USE_COMMANDER_CHANGE (targetDieId : Z) (newFace : CrewFace)
  | END_ASSIGN_PHASE
  | ACKNOWLEDGE_DRAW
  | START_THREAT_ROLL
  | THREAT_ROLL_COMPLETE (rolled : ThreatSymbol)
  | ACKNOWLEDGE_ACTIVATE
  | ACKNOWLEDGE_GATHER
  | TEST_LOAD_STATE (loaded : GameState).

(** [Array.from({ length: 6 }, (_, i) => ({ id: i, face: 'tactical',
    location: 'pool' }))] *)
Definition freshCrew : list CrewDie :=
  (λ i, {| die_id := i; face := face_tactical; location := pool |})
    <$> [0; 1; 2; 3; 4; 5].

Definition makeInitialState : GameState :=
  {| status := idle; phase := rolling; difficulty := normal;
     hull := 8; maxHull := 8; shields := 4; maxShields := 4;
     crew := freshCrew; activeThreats := []; deck := []; discard := [];
     threatDieFace := None; selectedDieId := None; tacticalDice := [];
     log := []; lossReason := None; turnNumber := 0; elapsedSeconds := 0;
     drawnCard := None; nebulaActive := false; commsOfflineActive := false;
     setupDrawsRemaining := 0; usedStationActions := [] |}.

(** [Partial<GameState>] as returned by [applyRevealEffect]: the fields it
    can carry, each present or absent. *)
Record RevealEffects := {
  re_hull : option Z;
  re_shields : option Z;
  re_log : option (list string);
  re_discard : option (list ThreatCard);
  re_crew : option (list CrewDie);
  re_activeThreats : option (list ActiveThreat)
}.

Definition noEffects : RevealEffects :=
  {| re_hull := None; re_shields := None; re_log := None;
     re_discard := None; re_crew := None; re_activeThreats := None |}.

(** [{ ...state, ...revealEffects }] *)
Definition spreadEffects (e : RevealEffects) (s : GameState) : GameState :=
  s <| set_hull := default (hull s) (re_hull e) |>
    <| set_shields := default (shields s) (re_shields e) |>
    <| set_log := default (log s) (re_log e) |>
    <| set_discard := default (discard s) (re_discard e) |>
    <| set_crew := default (crew s) (re_crew e) |>
    <| set_activeThreats := default (activeThreats s) (re_activeThreats e) |>.

(** Apply threat card effects on reveal. Returns updated state fields. *)
Definition applyRevealEffect (state : GameState) (c : ThreatCard)
  : M RevealEffects :=
  if negb (immediateOnReveal c) then mret noEffects
  else if String.eqb (card_id c) "solar-winds-flagship" then
    (* Deal 5 hull damage then discard *)
    let totalDmg := 5 in
    let absorbed := Z.min (shields state) totalDmg in
    let newShields := shields state - absorbed in
    let newHull := Z.max 0 (hull state - (totalDmg - absorbed)) in
    mret {| re_hull := Some newHull;
            re_shields := Some newShields;
            re_log := Some (log state ++
              ["Solar Winds Flagship fires! " +:+ pretty totalDmg
                 +:+ " hull damage dealt. Card discarded."]);
            re_discard := Some (discard state ++ [c]);
            re_crew := None; re_activeThreats := None |}
  else if String.prefix "distracted" (card_id c) then
    (* Lock one pool die on the card *)
    newThreat ← createActiveThreat c;
    let poolDie := find_by (λ d, location d = pool) (crew state) in
    let threats := activeThreats state ++ [newThreat] in
    match poolDie with
    | Some poolDie =>
        let crew' :=
          (λ d, if bool_decide (die_id d = die_id poolDie)
                then with_location (on_threat (threat_id newThreat)) d else d)
            <$> crew state in
        mret {| re_hull := None; re_shields := None;
                re_log := Some (log state ++
                  [name c +:+ ": " +:+ CrewFace_str (face poolDie)
                     +:+ " crew member is distracted!"]);
                re_discard := None;
                re_crew := Some crew';
                re_activeThreats := Some threats |}
    | None =>
        mret {| re_hull := None; re_shields := None;
                re_log := Some (log state ++
                  [name c +:+ ": no crew available to distract."]);
                re_discard := None;
                re_crew := Some (crew state);
                re_activeThreats := Some threats |}
    end
  else mret noEffects.

(** Draw and process a single threat card. Returns updated state. *)
Definition drawAndProcessCard (state : GameState) : M GameState :=
  match drawCard (deck state) with
  | None => mret state (* deck empty, no draw *)
  | Some (c, remainingDeck) =>
      let log' := log state ++ ["Threat card drawn: " +:+ name c +:+ "."] in
      (* Handle filler *)
      if bool_decide (kind c = filler) then
        mret (state <| set_deck := remainingDeck |>
                    <| set_discard := discard state ++ [c] |>
                    <| set_log := log' ++ [name c +:+ " — nothing happens."] |>
                    <| set_drawnCard := Some c |>)
      else
        (* Handle internal/external threats with immediate effects *)
        revealEffects ←
          applyRevealEffect
            (state <| set_deck := remainingDeck |> <| set_log := log' |>) c;
        (* For non-immediate reveal cards, add to active threats *)
        '(activeThreats', discard') ←
          (if negb (immediateOnReveal c) then
             newThreat ← createActiveThreat c;
             mret (activeThreats state ++ [newThreat], discard state)
           else if String.eqb (card_id c) "solar-winds-flagship" then
             (* Solar Winds discards immediately *)
             mret (activeThreats state,
                   default (discard state) (re_discard revealEffects))
           else if String.prefix "distracted" (card_id c) then
             (* Distracted handled in revealEffects *)
             mret (default (activeThreats state)
                           (re_activeThreats revealEffects),
                   discard state)
           else mret (activeThreats state, discard state));
        mret (spreadEffects revealEffects state
                <| set_deck := remainingDeck |>
                <| set_activeThreats := activeThreats' |>
                <| set_discard :=
                     if immediateOnReveal c then discard' else discard state |>
                <| set_log := default log' (re_log revealEffects) |>
                <| set_drawnCard := Some c |>)
  end.

(** After assign phase, process any resolved internal threats. *)
Definition processResolvedThreats (state : GameState) : GameState :=
  foldl
    (λ currentState threat,
       if bool_decide (kind (card threat) ≠ internal) then currentState
       else if isThreatResolved threat (crew currentState) then
         let '(threats, crew') :=
           resolveThreat (activeThreats currentState) (crew currentState)
                         (threat_id threat) in
         currentState
           <| set_activeThreats := threats |>
           <| set_crew := crew' |>
           <| set_discard := discard currentState ++ [card threat] |>
           <| set_log := log currentState
                           ++ [name (card threat) +:+ " resolved!"] |>
       else currentState)
    state (activeThreats state).

(** Recompute passive flags after threat list changes. *)
Definition withPassiveFlags (state : GameState) : GameState :=
  state <| set_nebulaActive := isNebulaActive (activeThreats state) |>
        <| set_commsOfflineActive :=
             isCommsOfflineActive (activeThreats state) |>.

(** Check win/loss after a state-changing action. *)
Definition withWinLossCheck (state : GameState) : GameState :=
  if bool_decide (hull state ≤ 0) then
    state <| set_status := lost |> <| set_lossReason := Some loss_hull |>
  else if bool_decide (status state = playing) && checkCrewLoss (crew state)
  then
    state <| set_status := lost |> <| set_lossReason := Some loss_crew |>
  else if bool_decide (status state = playing)
          && checkWin (deck state) (activeThreats state) then
    state <| set_status := won |>
  else state.

Definition startNewGame (difficulty : Difficulty) : M GameState :=
  deck' ← buildDeck difficulty;
  let crew' := freshCrew in
  let state :=
    makeInitialState
      <| set_status := playing |>
      <| set_phase := rolling |>
      <| set_difficulty := difficulty |>
      <| set_deck := deck' |>
      <| set_crew := crew' |>
      <| set_log := ["Game started. Drawing 2 initial threat cards..."] |>
      <| set_turnNumber := 1 |> in
  (* Draw 1st setup card *)
  state ← drawAndProcessCard (state <| set_setupDrawsRemaining := 2 |>);
  let state := withPassiveFlags (state <| set_phase := drawing |>) in
  mret (withWinLossCheck state).

(** [state.status !== 'playing' || state.phase !== p] *)
Definition notIn (p : TurnPhase) (state : GameState) : bool :=
  bool_decide (status state ≠ playing) || bool_decide (phase state ≠ p).

(** [for (let i = 0; i < extraDraws; i++)] of ROLL_COMPLETE: [todo]
    iterations remain and the loop variable is [i]. *)
Fixpoint scannerDraws (todo i extraDraws : nat) (currentState : GameState)
  : M GameState :=
  match todo with
  | O => mret currentState
  | S todo' =>
      currentState ← drawAndProcessCard currentState;
      scannerDraws todo' (S i) extraDraws
        (currentState
           <| set_log := log currentState ++
                ["(Scanner draw " +:+ pretty (i + 1)%nat +:+ "/"
                   +:+ pretty extraDraws +:+ ")"] |>)
  end.

(** The same loop in USE_COMMANDER_REROLL, which logs nothing. *)
Fixpoint rerollDraws (todo : nat) (currentState : GameState) : M GameState :=
  match todo with
  | O => mret currentState
  | S todo' =>
      currentState ← drawAndProcessCard currentState;
      rerollDraws todo' currentState
  end.

(** The reducer.  [GameAction] is a closed type here, so the [default]
    arm of the source's switch (an unknown action type returns the state)
    has no counterpart. *)
Definition gameReducer (state : GameState) (action : GameAction)
  : M GameState :=
  match action with
  (* ── Meta ── *)
  | TEST_LOAD_STATE loaded => mret loaded

  | NEW_GAME difficulty => startNewGame difficulty

  | TICK =>
      if bool_decide (status state ≠ playing) then mret state
      else mret (state <| set_elapsedSeconds := elapsedSeconds state + 1 |>)

  (* ── Rolling phase ── *)
  | START_ROLL =>
      if notIn rolling state then mret state
      else
        mret (state <| set_log :=
                ["Turn " +:+ pretty (turnNumber state)
                   +:+ ": Rolling crew dice..."] |>)

  | ROLL_COMPLETE faces =>
      if notIn rolling state then mret state
      else
        (* Apply rolled faces to pool dice *)
        let poolDice := filter (λ d, location d = pool) (crew state) in
        let crew1 :=
          (λ d, match findIndex (λ p, die_id p = die_id d) poolDice with
                | None => d
                | Some poolIndex =>
                    with_face (default (face d) (faces !! poolIndex)) d
                end) <$> crew state in
        (* Auto-lock ThreatDetected dice to scanners *)
        let newThreatDice :=
          die_id <$>
            filter (λ d, location d = pool ∧ face d = face_threat) crew1 in
        let crew2 :=
          (λ d, if bool_decide (location d = pool)
                   && bool_decide (face d = face_threat)
                then with_location (at_station st_scanners) d else d)
            <$> crew1 in
        let log' :=
          if bool_decide (0 < length newThreatDice)%nat then
            log state ++
              [pretty (length newThreatDice)
                 +:+ " die/dice locked in Scanners (Threat Detected)."]
          else log state in
        (* Process scanners: every 3 = draw a threat card *)
        let sc := processScanners crew2 in
        let currentState :=
          state <| set_crew := sc_crew sc |> <| set_log := log' |> in
        currentState ←
          scannerDraws (sc_extraDraws sc) 0 (sc_extraDraws sc) currentState;
        let currentState :=
          withPassiveFlags
            (currentState <| set_phase := assigning |>
                          <| set_drawnCard := None |>) in
        mret (withWinLossCheck currentState)

  (* ── Assign phase ── *)
  | SELECT_DIE dieId =>
      if notIn assigning state then mret state
      else mret (state <| set_selectedDieId := dieId |>)

  | ASSIGN_TO_STATION dieId stationId =>
      if notIn assigning state then mret state
      else
        match find_by (λ d, die_id d = dieId) (crew state) with
        | None => mret state
        | Some die =>
            if bool_decide (location die ≠ pool) then mret state
            else
              let crew' :=
                (λ d, if bool_decide (die_id d = dieId)
                      then with_location (at_station stationId) d else d)
                  <$> crew state in
              (* Track tactical dice for later firing *)
              let tacticalDice' :=
                if bool_decide (stationId = st_tactical)
                then tacticalDice state ++ [dieId] else tacticalDice state in
              mret (withPassiveFlags
                      (state
                         <| set_crew := crew' |>
                         <| set_tacticalDice := tacticalDice' |>
                         <| set_selectedDieId := None |>
                         <| set_log := log state ++
                              ["Assigned " +:+ CrewFace_str (face die)
                                 +:+ " die to " +:+ StationId_str stationId
                                 +:+ "."] |>))
        end

  | ASSIGN_TO_THREAT dieId threatId =>
      if notIn assigning state then mret state
      else
        match find_by (λ d, die_id d = dieId) (crew state),
              find_by (λ t, threat_id t = threatId) (activeThreats state) with
        | Some die, Some threat =>
            if bool_decide (location die ≠ pool) then mret state
            else if bool_decide (kind (card threat) ≠ internal) then mret state
            else
              match resolution (card threat) with
              | None => mret state
              | Some req =>
                  if bool_decide (face die ≠ req_face req) then mret state
                  else
                    let crew' :=
                      (λ d, if bool_decide (die_id d = dieId)
                            then with_location (on_threat threatId) d else d)
                        <$> crew state in
                    (* Update away mission on threat *)
                    let activeThreats' :=
                      (λ t, if bool_decide (threat_id t = threatId)
                            then with_awayMission (awayMission t ++ [dieId]) t
                            else t) <$> activeThreats state in
                    let log' :=
                      log state ++
                        [CrewFace_str (face die) +:+ " die sent to "
                           +:+ name (card threat) +:+ " (away mission)."] in
                    (* Check if threat is now resolved *)
                    let newState :=
                      withPassiveFlags
                        (state <| set_crew := crew' |>
                               <| set_activeThreats := activeThreats' |>
                               <| set_selectedDieId := None |>
                               <| set_log := log' |>) in
                    let newState := processResolvedThreats newState in
                    mret (withPassiveFlags newState)
              end
        | _, _ => mret state
        end

  | USE_ENGINEERING =>
      if notIn assigning state then mret state
      else
        let engCount := countAtStation (crew state) st_engineering in
        if bool_decide (engCount = 0%nat) then mret state
        else
          let newHull :=
            resolveEngineering (hull state) (maxHull state)
                               (Z.of_nat engCount) in
          let repaired := newHull - hull state in
          mret (state
                  <| set_hull := newHull |>
                  <| set_log := log state ++
                       ["Engineering repaired " +:+ pretty repaired
                          +:+ " hull. (" +:+ pretty newHull +:+ "/"
                          +:+ pretty (maxHull state) +:+ ")"] |>)

  | USE_MEDICAL =>
      if notIn assigning state then mret state
      else if bool_decide ("USE_MEDICAL" ∈ usedStationActions state)
      then mret state
      else
        let medCount := countAtStation (crew state) st_medical in
        if bool_decide (medCount = 0%nat) then mret state
        else
          let infirmaryCount := countAtStation (crew state) st_infirmary in
          let crew' := resolveMedical (crew state) in
          mret (state
                  <| set_crew := crew' |>
                  <| set_usedStationActions :=
                       usedStationActions state ++ ["USE_MEDICAL"] |>
                  <| set_log := log state ++
                       ["Medical: " +:+ pretty infirmaryCount
                          +:+ " crew recovered from Infirmary."] |>)

  | USE_MEDICAL_SCANNERS =>
      if notIn assigning state then mret state
      else
        let medCount := countAtStation (crew state) st_medical in
        if bool_decide (medCount = 0%nat) then mret state
        else
          let crew' := releaseFromScanners (crew state) in
          mret (state
                  <| set_crew := crew' |>
                  <| set_log := log state ++
                       ["Medical: 1 crew released from Scanners."] |>)

  | USE_TACTICAL targetThreatId =>
      if notIn assigning state then mret state
      else
        let tactCount := length (tacticalDice state) in
        if bool_decide (tactCount = 0%nat) then mret state
        else
          match find_by (λ t, threat_id t = targetThreatId)
                        (activeThreats state) with
          | None => mret state
          | Some target =>
              if negb (canTargetThreat target (activeThreats state))
              then mret state
              else
                let damage := calculateTacticalDamage (Z.of_nat tactCount) in
                let timeWarp := isTimeWarpActive (activeThreats state) in
                let activeThreats' :=
                  applyTacticalDamage (activeThreats state) targetThreatId
                                      damage timeWarp in
                let destroyed :=
                  match find_by (λ t, threat_id t = targetThreatId)
                                activeThreats' with
                  | Some t => isDestroyed t
                  | None => false
                  end in
                let log' :=
                  log state ++
                    ["Tactical: " +:+ pretty tactCount +:+ " "
                       +:+ (if bool_decide (tactCount = 1%nat)
                            then "die" else "dice")
                       +:+ " fire at " +:+ name (card target) +:+ " for "
                       +:+ pretty damage +:+ " damage."
                       +:+ (if destroyed then " Target destroyed!" else "")] in
                (* Discard destroyed external/boss threats (barriers stay) *)
                let discard' :=
                  discard state ++
                    (card <$>
                       filter (λ t, threat_id t = targetThreatId
                                    ∧ isDestroyed t = true
                                    ∧ isBarrier (card t) = false)
                              activeThreats') in
                (* Remove non-barrier destroyed threats from board *)
                let finalThreats :=
                  filter (λ t, isDestroyed t = false
                               ∨ isBarrier (card t) = true) activeThreats' in
                mret (withWinLossCheck
                        (withPassiveFlags
                           (state <| set_activeThreats := finalThreats |>
                                  <| set_discard := discard' |>
                                  <| set_tacticalDice := [] |>
                                  <| set_log := log' |>)))
          end

  | USE_SCIENCE_SHIELDS =>
      if notIn assigning state then mret state
      else if bool_decide ("USE_SCIENCE" ∈ usedStationActions state)
      then mret state
      else
        let sciCount := countAtStation (crew state) st_science in
        if bool_decide (sciCount = 0%nat) then mret state
        else if nebulaActive state then
          mret (state <| set_log := log state ++
                  ["Science: shields cannot be recharged — Nebula is active!"] |>)
        else
          let shields' := resolveScience (maxShields state) in
          mret (state
                  <| set_shields := shields' |>
                  <| set_usedStationActions :=
                       usedStationActions state ++ ["USE_SCIENCE"] |>
                  <| set_log := log state ++
                       ["Science: shields recharged to " +:+ pretty shields'
                          +:+ "/" +:+ pretty (maxShields state) +:+ "."] |>)

  | USE_SCIENCE_STASIS targetThreatId =>
      if notIn assigning state then mret state
      else if bool_decide ("USE_SCIENCE" ∈ usedStationActions state)
      then mret state
      else
        let sciCount := countAtStation (crew state) st_science in
        if bool_decide (sciCount = 0%nat) then mret state
        else
          match find_by (λ t, threat_id t = targetThreatId)
                        (activeThreats state) with
          | None => mret state
          | Some target =>
              let activeThreats' :=
                placeStasisToken (activeThreats state) targetThreatId in
              mret (state
                      <| set_activeThreats := activeThreats' |>
                      <| set_usedStationActions :=
                           usedStationActions state ++ ["USE_SCIENCE"] |>
                      <| set_log := log state ++
                           ["Science: stasis token placed on "
                              +:+ name (card target) +:+ "."] |>)
          end

  | USE_COMMANDER_REROLL =>
      if notIn assigning state then mret state
      else if commsOfflineActive state then mret state
      else if bool_decide ("USE_COMMANDER" ∈ usedStationActions state)
      then mret state
      else
        let cmdCount := countAtStation (crew state) st_commander in
        if bool_decide (cmdCount = 0%nat) then mret state
        else
          let rerollCount := commanderRerollCount (crew state) in
          newFaces ← rollAllCrewDice rerollCount;
          let poolDice := filter (λ d, location d = pool) (crew state) in
          let rerolled (d : CrewDie) : CrewFace :=
            match findIndex (λ p, die_id p = die_id d) poolDice with
            | Some idx => default (face d) (newFaces !! idx)
            | None => face d
            end in
          let newThreatDice :=
            die_id <$>
              filter (λ d, location d = pool ∧ rerolled d = face_threat)
                     (crew state) in
          let crew' :=
            (λ d, if bool_decide (location d ≠ pool) then d
                  else
                    let newFace := rerolled d in
                    if bool_decide (newFace = face_threat)
                    then with_location (at_station st_scanners)
                           (with_face newFace d)
                    else with_face newFace d) <$> crew state in
          let log' :=
            log state
              ++ ["Commander: re-rolled " +:+ pretty rerollCount +:+ " dice."]
              ++ (if bool_decide (0 < length newThreatDice)%nat then
                    [pretty (length newThreatDice)
                       +:+ " new Threat Detected die/dice locked in Scanners."]
                  else []) in
          (* Process scanners again after reroll *)
          let sc := processScanners crew' in
          let currentState :=
            state <| set_crew := sc_crew sc |>
                  <| set_log := log' |>
                  <| set_usedStationActions :=
                       usedStationActions state ++ ["USE_COMMANDER"] |> in
          currentState ← rerollDraws (sc_extraDraws sc) currentState;
          mret (withPassiveFlags (withWinLossCheck currentState))

  | USE_COMMANDER_CHANGE targetDieId newFace =>
      if notIn assigning state then mret state
      else if commsOfflineActive state then mret state
      else if bool_decide ("USE_COMMANDER" ∈ usedStationActions state)
      then mret state
      else
        let cmdCount := countAtStation (crew state) st_commander in
        if bool_decide (cmdCount = 0%nat) then mret state
        else
          let crew' := commanderChangeDie (crew state) targetDieId newFace in
          (* If changed to threat, auto-lock *)
          let crew' :=
            if bool_decide (newFace = face_threat) then
              (λ d, if bool_decide (die_id d = targetDieId)
                       && bool_decide (location d = pool)
                    then with_location (at_station st_scanners) d else d)
                <$> crew'
            else crew' in
          mret (withPassiveFlags
                  (state
                     <| set_crew := crew' |>
                     <| set_usedStationActions :=
                          usedStationActions state ++ ["USE_COMMANDER"] |>
                     <| set_log := log state ++
                          ["Commander: changed die to "
                             +:+ CrewFace_str newFace +:+ "."] |>))

  | END_ASSIGN_PHASE =>
      if notIn assigning state then mret state
      else
        (* Resolve engineering automatically when ending phase *)
        let engCount := countAtStation (crew state) st_engineering in
        let stateAfterEng :=
          if bool_decide (0 < engCount)%nat then
            let newHull :=
              resolveEngineering (hull state) (maxHull state)
                                 (Z.of_nat engCount) in
            let repaired := newHull - hull state in
            state
              <| set_hull := newHull |>
              <| set_log :=
                   if bool_decide (0 < repaired) then
                     log state ++
                       ["Engineering auto-resolved: +" +:+ pretty repaired
                          +:+ " hull."]
                   else log state |>
          else state in
        (* Draw one threat card *)
        stateAfterDraw ← drawAndProcessCard stateAfterEng;
        mret (withWinLossCheck
                (withPassiveFlags
                   (stateAfterDraw <| set_phase := drawing |>
                                   <| set_tacticalDice := [] |>)))

  (* ── Drawing phase ── *)
  | ACKNOWLEDGE_DRAW =>
      if notIn drawing state then mret state
      else if bool_decide (2 ≤ setupDrawsRemaining state) then
        (* Setup sequence: draw the 2nd card *)
        next ←
          drawAndProcessCard
            (state <| set_drawnCard := None |>
                   <| set_setupDrawsRemaining := 1 |>);
        let next := withPassiveFlags (next <| set_phase := drawing |>) in
        mret (withWinLossCheck next)
      else if bool_decide (setupDrawsRemaining state = 1) then
        mret (withPassiveFlags
                (state <| set_phase := rolling |>
                       <| set_drawnCard := None |>
                       <| set_setupDrawsRemaining := 0 |>))
      else
        (* Normal mid-turn draw acknowledgement *)
        mret (state <| set_phase := activating |> <| set_drawnCard := None |>)

  (* ── Activating phase ── *)
  | START_THREAT_ROLL =>
      if notIn activating state then mret state
      else mret (state <| set_threatDieFace := None |>)

  | THREAT_ROLL_COMPLETE rolled =>
      if notIn activating state then mret state
      else
        let log' :=
          log state ++
            ["Threat Die rolled: " +:+ ThreatSymbol_str rolled +:+ "."] in
        let result := activateThreats state rolled in
        (* Handle time warp discard reshuffle *)
        deck' ←
          (if existsb (includes "Time Warp") (ar_log result) then
             let toReshuffle :=
               drop (length (discard state) - 3) (discard state) in
             if bool_decide (0 < length toReshuffle)%nat then
               let newDeck := deck state ++ toReshuffle in
               shuffle_loop (length newDeck - 1) newDeck
             else mret (deck state)
           else mret (deck state));
        let stateAfterActivation :=
          withPassiveFlags
            (state <| set_hull := ar_hull result |>
                   <| set_shields := ar_shields result |>
                   <| set_activeThreats := ar_threats result |>
                   <| set_crew := ar_crew result |>
                   <| set_deck := deck' |>
                   <| set_log := log' ++ ar_log result |>
                   <| set_threatDieFace := Some rolled |>) in
        (* Extra draw from Comms Offline activation *)
        stateAfterActivation ←
          (if ar_extraDraw result then drawAndProcessCard stateAfterActivation
           else mret stateAfterActivation);
        mret (withWinLossCheck stateAfterActivation)

  | ACKNOWLEDGE_ACTIVATE =>
      if notIn activating state then mret state
      else mret (state <| set_phase := gathering |>)

  (* ── Gathering phase ── *)
  | ACKNOWLEDGE_GATHER =>
      if notIn gathering state then mret state
      else
        let crew' := gatherCrew (crew state) (activeThreats state) in
        let gathered := length (filter (λ d, location d = pool) crew') in
        let log' :=
          log state ++
            ["Crew gathered. " +:+ pretty gathered
               +:+ " crew ready for next turn."] in
        let nextState :=
          withPassiveFlags
            (state <| set_crew := crew' |>
                   <| set_log := log' |>
                   <| set_phase := rolling |>
                   <| set_turnNumber := turnNumber state + 1 |>
                   <| set_tacticalDice := [] |>
                   <| set_drawnCard := None |>
                   <| set_selectedDieId := None |>
                   <| set_usedStationActions := [] |>) in
        mret (withWinLossCheck nextState)
  end.

(** ** The two-stage damage rule, in the words of the specification

    These three definitions follow the specification's sentence, not the
    source: "first subtracts shield-damage directly from shields, any excess
    beyond available shields overflowing to hull; then subtracts hull-damage
    from shields first and the remainder from hull.  Both resources are
    floored at zero."  A ship is the pair (hull, shields).  They are compared
    with [applyDamage] in [applyDamage_two_stages]. *)

Definition directShieldHit (ship : Z * Z) (shieldDmg : Z) : Z * Z :=
  let '(hull, shields) := ship in
  if shieldDmg <=? shields then (hull, shields - shieldDmg)
  else (hull - (shieldDmg - shields), 0).

Definition absorbedHullHit (ship : Z * Z) (hullDmg : Z) : Z * Z :=
  let '(hull, shields) := ship in
  if hullDmg <=? shields then (hull, shields - hullDmg)
  else (hull - (hullDmg - shields), 0).

Definition flooredAtZero (ship : Z * Z) : Z * Z :=
  (Z.max 0 (fst ship), Z.max 0 (snd ship)).

Definition applyDamage_spec (hull shields hullDmg shieldDmg : Z) : Z * Z :=
  flooredAtZero
    (absorbedHullHit (directShieldHit (hull, shields) shieldDmg) hullDmg).

(** ** Turn budget vocabulary

    The once-per-turn budget of the reducer is the list [usedStationActions];
    [budgetTag] names the tag each station-ability action checks and records
    there (read off the reducer's cases), and [endsTurn] marks the actions
    that replace the list wholesale. *)

Definition budgetTag (a : GameAction) : option string :=
  match a with
  | USE_MEDICAL => Some "USE_MEDICAL"
  | USE_SCIENCE_SHIELDS | USE_SCIENCE_STASIS _ => Some "USE_SCIENCE"
  | USE_COMMANDER_REROLL | USE_COMMANDER_CHANGE _ _ => Some "USE_COMMANDER"
  | _ => None
  end.

Definition endsTurn (a : GameAction) : bool :=
  match a with
  | ACKNOWLEDGE_GATHER | NEW_GAME _ | TEST_LOAD_STATE _ => true
  | _ => false
  end.

(** The phase each action is designed for, read off the guards of the
    reducer; TICK checks the status only, NEW_GAME and the raw state load
    check nothing. *)
Definition actionPhase (a : GameAction) : option TurnPhase :=
  match a with
  | START_ROLL | ROLL_COMPLETE _ => Some rolling
  | SELECT_DIE _ | ASSIGN_TO_STATION _ _ | ASSIGN_TO_THREAT _ _
  | USE_ENGINEERING | USE_MEDICAL | USE_MEDICAL_SCANNERS | USE_TACTICAL _
  | USE_SCIENCE_SHIELDS | USE_SCIENCE_STASIS _ | USE_COMMANDER_REROLL
  | USE_COMMANDER_CHANGE _ _ | END_ASSIGN_PHASE => Some assigning
  | ACKNOWLEDGE_DRAW => Some drawing
  | START_THREAT_ROLL | THREAT_ROLL_COMPLETE _ | ACKNOWLEDGE_ACTIVATE =>
      Some activating
  | ACKNOWLEDGE_GATHER => Some gathering
  | NEW_GAME _ | TICK | TEST_LOAD_STATE _ => None
  end.

(** Dispatching a sequence of actions, one after the other. *)
Fixpoint dispatchAll (state : GameState) (actions : list GameAction)
  : M GameState :=
  match actions with
  | [] => mret state
  | a :: rest => state ← gameReducer state a; dispatchAll state rest
  end.

(** ** Scenarios *)

Definition quietWorld : World := {| instanceCounter := 0; randomTape := [] |}.

(** Hull 8, shields 0, one live Pirates card. *)
Definition piratesThreat : ActiveThreat :=
  {| threat_id := "pirates-1"; card := PIRATES; health := 4;
     stasisTokens := 0; awayMission := []; isDestroyed := false |}.

Definition piratesScenario : GameState :=
  makeInitialState <| set_status := playing |>
                   <| set_phase := activating |>
                   <| set_shields := 0 |>
                   <| set_activeThreats := [piratesThreat] |>.

(** A destroyed barrier waiting for its symbol. *)
Definition fallenBarrier : ActiveThreat :=
  {| threat_id := "ouroboros-barrier-1"; card := OUROBOROS_BARRIER;
     health := 0; stasisTokens := 0; awayMission := []; isDestroyed := true |}.

Definition barrierScenario : GameState :=
  makeInitialState <| set_status := playing |>
                   <| set_phase := activating |>
                   <| set_activeThreats := [piratesThreat; fallenBarrier] |>.

(** The assigning phase with Comms Offline in play: die 0 shows tactical,
    die 1 shows commander, both in the pool. *)
Definition commsOfflineThreat : ActiveThreat :=
  {| threat_id := "comms-offline-1"; card := COMMS_OFFLINE; health := 0;
     stasisTokens := 0; awayMission := []; isDestroyed := false |}.

Definition assignScenario : GameState :=
  makeInitialState
    <| set_status := playing |>
    <| set_phase := assigning |>
    <| set_crew :=
         [ {| die_id := 0; face := face_tactical; location := pool |};
           {| die_id := 1; face := face_commander; location := pool |};
           {| die_id := 2; face := face_medical; location := pool |};
           {| die_id := 3; face := face_science; location := pool |};
           {| die_id := 4; face := face_engineering; location := pool |};
           {| die_id := 5; face := face_tactical; location := pool |} ] |>
    <| set_activeThreats := [commsOfflineThreat] |>
    <| set_commsOfflineActive := true |>.

(** The assigning phase with a medical die on its station, one die in the
    infirmary and two in the scanners. *)
Definition medicalScenario : GameState :=
  makeInitialState
    <| set_status := playing |>
    <| set_phase := assigning |>
    <| set_crew :=
         [ {| die_id := 0; face := face_medical;
              location := at_station st_medical |};
           {| die_id := 1; face := face_tactical;
              location := at_station st_infirmary |};
           {| die_id := 2; face := face_threat;
              location := at_station st_scanners |};
           {| die_id := 3; face := face_threat;
              location := at_station st_scanners |};
           {| die_id := 4; face := face_engineering; location := pool |};
           {| die_id := 5; face := face_tactical; location := pool |} ] |>.

(** The assigning phase with the commander die on its station and the
    commander ability available. *)
Definition commanderScenario : GameState :=
  makeInitialState
    <| set_status := playing |>
    <| set_phase := assigning |>
    <| set_crew :=
         [ {| die_id := 0; face := face_commander;
              location := at_station st_commander |};
           {| die_id := 1; face := face_tactical; location := pool |};
           {| die_id := 2; face := face_medical; location := pool |};
           {| die_id := 3; face := face_science; location := pool |};
           {| die_id := 4; face := face_engineering; location := pool |};
           {| die_id := 5; face := face_tactical; location := pool |} ] |>.

(** The assigning phase with an empty deck. *)
Definition emptyDeckScenario : GameState :=
  makeInitialState <| set_status := playing |> <| set_phase := assigning |>
                   <| set_activeThreats := [piratesThreat] |>.

(** ** Vocabulary of the reducer's invariants

    [shipInBounds]: hull and shields lie between zero and their maxima.
    [nextPhase]: the turn cycle rolling, assigning, drawing, activating,
    gathering, as the reducer's [phase:] assignments run through it. *)

Definition shipInBounds (s : GameState) : Prop :=
  0 ≤ hull s ≤ maxHull s ∧ 0 ≤ shields s ≤ maxShields s.

Definition nextPhase (p : TurnPhase) : TurnPhase :=
  match p with
  | rolling => assigning
  | assigning => drawing
  | drawing => activating
  | activating => gathering
  | gathering => rolling
  end.

(** * Verification *)

(** ** Ship damage *)

Section ApplyDamage.

Variables hull shields hullDmg shieldDmg : Z.

(** The arithmetic content of [applyDamage] without its log: both stages
    written with [min], as the source has them. *)
Lemma applyDamage_values :
  0 ≤ shields → 0 ≤ hullDmg → 0 ≤ shieldDmg →
  let actual := Z.min shields shieldDmg in
  let absorbed := Z.min (shields - actual) hullDmg in
  sd_hull (applyDamage hull shields hullDmg shieldDmg)
    = Z.max 0 (hull - (shieldDmg - actual) - (hullDmg - absorbed))
  ∧ sd_shields (applyDamage hull shields hullDmg shieldDmg)
    = Z.max 0 (shields - actual - absorbed).
Proof.
  intros H0 Hh Hs. unfold applyDamage.
  destruct (Z.ltb_spec 0 shieldDmg) as [Hsd|Hsd];
    [destruct (Z.ltb_spec 0 (shieldDmg - Z.min shields shieldDmg))|];
    destruct (Z.ltb_spec 0 hullDmg) as [Hhd|Hhd];
    cbv beta iota zeta delta [sd_hull sd_shields]; split; lia.
Qed.

(** C2, as amended.  For non-negative inputs the returned hull and shields
    are never negative, and the shield loss plus the hull loss equals the
    damage dealt capped by what the ship had: min(hullDmg + shieldDmg,
    hull + shields).  It is the whole damage exactly when the ship can
    take it; the part of a hit beyond hull + shields is lost to the floor
    at zero. *)
Theorem applyDamage_nonneg_capped_conservation :
  0 ≤ hull → 0 ≤ shields → 0 ≤ hullDmg → 0 ≤ shieldDmg →
  let r := applyDamage hull shields hullDmg shieldDmg in
  0 ≤ sd_hull r ∧ 0 ≤ sd_shields r
  ∧ (shields - sd_shields r) + (hull - sd_hull r)
    = Z.min (hullDmg + shieldDmg) (hull + shields).
Proof.
  intros H1 H2 H3 H4 r. subst r.
  destruct (applyDamage_values H2 H3 H4) as [-> ->]. lia.
Qed.

(** C3.  On the game's domain (non-negative shields and damage amounts, any
    hull) [applyDamage] is the two stages of the specification in their
    order, direct shield hit first and absorbed hull hit second, followed
    by the floor at zero of both resources. *)
Theorem applyDamage_two_stages :
  0 ≤ shields → 0 ≤ hullDmg → 0 ≤ shieldDmg →
  let r := applyDamage hull shields hullDmg shieldDmg in
  (sd_hull r, sd_shields r)
    = applyDamage_spec hull shields hullDmg shieldDmg.
Proof.
  intros H2 H3 H4 r. subst r.
  destruct (applyDamage_values H2 H3 H4) as [-> ->].
  unfold applyDamage_spec, flooredAtZero, absorbedHullHit, directShieldHit.
  destruct (Z.leb_spec shieldDmg shields);
    [destruct (Z.leb_spec hullDmg (shields - shieldDmg))
    |destruct (Z.leb_spec hullDmg 0)];
    cbv beta iota zeta delta [fst snd]; f_equal; lia.
Qed.

End ApplyDamage.

(** C2 as stated fails: a hit of 10 on a ship with hull 2 and no shields
    leaves hull 0, so 2 points were applied and none absorbed, not 10. *)
Lemma applyDamage_conservation_counterexample :
  ¬ (let r := applyDamage 2 0 10 0 in
     0 ≤ sd_hull r ∧ 0 ≤ sd_shields r
     ∧ (0 - sd_shields r) + (2 - sd_hull r) = 10 + 0).
Proof. vm_compute. intros (_ & _ & H). discriminate H. Qed.

Lemma applyDamage_nonneg_capped_conservation_witness :
  (0 ≤ 8 ∧ 0 ≤ 1 ∧ 0 ≤ 2 ∧ 0 ≤ 3)
  ∧ (let r := applyDamage 8 1 2 3 in
     0 ≤ sd_hull r ∧ 0 ≤ sd_shields r
     ∧ (1 - sd_shields r) + (8 - sd_hull r) = Z.min (2 + 3) (8 + 1)).
Proof.
  split; [lia|].
  apply (applyDamage_nonneg_capped_conservation 8 1 2 3); lia.
Defined.

Lemma applyDamage_two_stages_witness :
  (0 ≤ 4 ∧ 0 ≤ 2 ∧ 0 ≤ 1)
  ∧ (let r := applyDamage 8 4 2 1 in
     (sd_hull r, sd_shields r) = applyDamage_spec 8 4 2 1).
Proof.
  split; [lia|]. apply (applyDamage_two_stages 8 4 2 1); lia.
Defined.

(** ** Win check *)

(** C5.  [checkWin] is true exactly when the deck is empty and no active
    threat is a non-destroyed external, boss (the [isOuroboros] flag) or
    boss-barrier (the [isBarrier] flag). *)
Theorem checkWin_iff {A} (deck : list A) (threats : list ActiveThreat) :
  checkWin deck threats = true
  ↔ deck = []
    ∧ ∀ t, t ∈ threats →
        ¬ ((kind (card t) = external ∨ isOuroboros (card t) = true
            ∨ isBarrier (card t) = true)
           ∧ isDestroyed t = false).
Proof.
  unfold checkWin. case_bool_decide as Hd.
  - split; [discriminate|]. intros [-> _]. cbn in Hd. lia.
  - rewrite bool_decide_eq_true, length_zero_iff_nil.
    assert (deck = []) as -> by (destruct deck; [done|cbn in Hd; lia]).
    split.
    + intros Hnil. split; [done|]. intros t Ht HP.
      by apply (filter_nil_not_elem_of _ _ t Hnil HP).
    + intros [_ Hall]. induction threats as [|t ts IH]; [done|].
      rewrite filter_cons. destruct (decide _) as [HP|_].
      * exfalso. apply (Hall t); [left|done].
      * apply IH. intros t' Ht'. apply Hall. by right.
Qed.

(** A destroyed barrier left in play does not stand in the way of the win. *)
Lemma checkWin_destroyed_barrier :
  checkWin (@nil ThreatCard) [fallenBarrier] = true.
Proof. reflexivity. Qed.

(** ** Array helpers *)

Section ArrayHelpers.

Context {A : Type} (P : A → Prop) `{∀ x, Decision (P x)}.

Lemma find_by_nil : find_by P [] = None.
Proof. reflexivity. Qed.

Lemma find_by_cons x l :
  find_by P (x :: l) = if decide (P x) then Some x else find_by P l.
Proof.
  unfold find_by. cbn. destruct (decide (P x)); [done|].
  by destruct (list_find P l) as [[i y]|].
Qed.

Lemma find_by_Some l x : find_by P l = Some x → x ∈ l ∧ P x.
Proof.
  unfold find_by. destruct (list_find P l) as [[i y]|] eqn:E; [|done].
  intros [= <-]. apply list_find_Some in E as (Hi & HP & _).
  split; [|done]. by eapply list_elem_of_lookup_2.
Qed.

Lemma find_by_None l : find_by P l = None ↔ Forall (λ x, ¬ P x) l.
Proof.
  unfold find_by. rewrite fmap_None. apply list_find_None.
Qed.

End ArrayHelpers.

(** ** The deck *)

Section Shuffle.

Context {A : Type}.

Lemma swap_Permutation (arr : list A) i j : swap arr i j ≡ₚ arr.
Proof.
  unfold swap. destruct (arr !! i) as [x|] eqn:Hi; [|done].
  destruct (arr !! j) as [y|] eqn:Hj; [|done].
  by apply Permutation_insert_swap.
Qed.

Lemma shuffle_loop_Permutation i (arr : list A) w :
  (shuffle_loop i arr w).1 ≡ₚ arr.
Proof.
  revert arr w. induction i as [|i IH]; intros arr w; [done|].
  cbn. unfold mbind, M_bind.
  destruct (randomIndex _ w) as [j w'].
  rewrite IH. apply swap_Permutation.
Qed.

(** The shuffle returns a permutation of its input, whatever the random
    source yields. *)
Lemma shuffle_Permutation (items : list A) w : (shuffle items w).1 ≡ₚ items.
Proof. apply shuffle_loop_Permutation. Qed.

End Shuffle.

Lemma buildDeck_unfold difficulty w :
  (buildDeck difficulty w).1
  = (shuffle (CORE_CARDS ++ replicate (DONT_PANIC_COUNTS difficulty)
                                       DON_T_PANIC) w).1 ++ [OUROBOROS].
Proof.
  unfold buildDeck, mbind, M_bind. by destruct (shuffle _ w).
Qed.

(** No card shuffled into the body of the deck is the boss. *)
Lemma body_has_no_boss difficulty :
  Forall (λ c, isOuroboros c = false)
    (CORE_CARDS ++ replicate (DONT_PANIC_COUNTS difficulty) DON_T_PANIC).
Proof.
  apply Forall_app. split.
  - repeat constructor.
  - by apply Forall_replicate.
Qed.

(** C4.  For every difficulty and every outcome of the random source, the
    deck built by [buildDeck] ends with the boss card, and every earlier
    position holds a card that is not the boss (its [isOuroboros] flag is
    unset, so it differs from [OUROBOROS]). *)
Theorem buildDeck_boss_last_only (difficulty : Difficulty) (w : World) :
  let deck := (buildDeck difficulty w).1 in
  last deck = Some OUROBOROS
  ∧ ∀ i, (S i < length deck)%nat →
      ∃ c, deck !! i = Some c ∧ isOuroboros c = false ∧ c ≠ OUROBOROS.
Proof.
  cbn zeta. rewrite buildDeck_unfold.
  set (body := (shuffle _ w).1).
  assert (Forall (λ c, isOuroboros c = false) body) as Hbody.
  { unfold body. rewrite shuffle_Permutation. apply body_has_no_boss. }
  split; [apply last_snoc|].
  intros i Hi. rewrite length_app in Hi. cbn in Hi.
  destruct (lookup_lt_is_Some_2 body i) as [c Hc]; [lia|].
  exists c. rewrite lookup_app_l by lia. split; [done|].
  pose proof (proj1 (Forall_lookup _ _) Hbody i c Hc) as Hno.
  split; [done|]. intros ->. discriminate Hno.
Qed.

(** The deck holds the 24 core cards, the fillers of the difficulty, and
    the boss. *)
Lemma buildDeck_length difficulty w :
  length (buildDeck difficulty w).1
  = (24 + DONT_PANIC_COUNTS difficulty + 1)%nat.
Proof.
  rewrite buildDeck_unfold, length_app, shuffle_Permutation, length_app,
    length_replicate. reflexivity.
Qed.

(** ** Frame lemmas of the reducer's helpers *)

Ltac frame_of f :=
  intros; unfold f; repeat case_match; reflexivity.

Section Frames.

Variable s : GameState.

Lemma withPassiveFlags_crew : crew (withPassiveFlags s) = crew s.
Proof. reflexivity. Qed.
Lemma withPassiveFlags_used :
  usedStationActions (withPassiveFlags s) = usedStationActions s.
Proof. reflexivity. Qed.
Lemma withPassiveFlags_phase : phase (withPassiveFlags s) = phase s.
Proof. reflexivity. Qed.
Lemma withPassiveFlags_deck : deck (withPassiveFlags s) = deck s.
Proof. reflexivity. Qed.

Lemma withWinLossCheck_crew : crew (withWinLossCheck s) = crew s.
Proof. frame_of withWinLossCheck. Qed.
Lemma withWinLossCheck_used :
  usedStationActions (withWinLossCheck s) = usedStationActions s.
Proof. frame_of withWinLossCheck. Qed.
Lemma withWinLossCheck_phase : phase (withWinLossCheck s) = phase s.
Proof. frame_of withWinLossCheck. Qed.
Lemma withWinLossCheck_deck : deck (withWinLossCheck s) = deck s.
Proof. frame_of withWinLossCheck. Qed.
Lemma withWinLossCheck_discard : discard (withWinLossCheck s) = discard s.
Proof. frame_of withWinLossCheck. Qed.
Lemma withWinLossCheck_activeThreats :
  activeThreats (withWinLossCheck s) = activeThreats s.
Proof. frame_of withWinLossCheck. Qed.
Lemma withWinLossCheck_drawnCard :
  drawnCard (withWinLossCheck s) = drawnCard s.
Proof. frame_of withWinLossCheck. Qed.
Lemma withWinLossCheck_shields : shields (withWinLossCheck s) = shields s.
Proof. frame_of withWinLossCheck. Qed.
Lemma withWinLossCheck_hull : hull (withWinLossCheck s) = hull s.
Proof. frame_of withWinLossCheck. Qed.

End Frames.

Lemma notIn_false p s : status s = playing → phase s = p → notIn p s = false.
Proof.
  intros Hs Hp. unfold notIn.
  rewrite !bool_decide_eq_false_2 by (intros Hne; by apply Hne). done.
Qed.

Lemma notIn_true p s : notIn p s = true → status s ≠ playing ∨ phase s ≠ p.
Proof.
  unfold notIn. intros [H|H]%orb_true_iff; apply bool_decide_eq_true in H; auto.
Qed.

(** ** Drawing from an empty deck *)

(** C10.  With an empty deck every draw is a silent no-op: [drawCard]
    returns the empty result, [drawAndProcessCard] returns its state (and
    the ambient counter and random tape) untouched, and END_ASSIGN_PHASE
    dispatched in the assigning phase of a running game still moves to the
    drawing phase, with the deck still empty and no card drawn: discard,
    active threats, crew, shields and the displayed card are as before. *)
Theorem empty_deck_draw_is_noop (state : GameState) (w : World) :
  deck state = [] →
  drawCard (deck state) = None
  ∧ drawAndProcessCard state w = (state, w)
  ∧ (status state = playing → phase state = assigning →
     let next := gameReducer state END_ASSIGN_PHASE w in
     phase next.1 = drawing
     ∧ deck next.1 = []
     ∧ discard next.1 = discard state
     ∧ activeThreats next.1 = activeThreats state
     ∧ crew next.1 = crew state
     ∧ shields next.1 = shields state
     ∧ drawnCard next.1 = drawnCard state
     ∧ next.2 = w).
Proof.
  intros Hdeck.
  assert (∀ s, deck s = [] → drawAndProcessCard s w = (s, w)) as Hdraw.
  { intros s Hs. unfold drawAndProcessCard. by rewrite Hs. }
  split; [by rewrite Hdeck|]. split; [by apply Hdraw|].
  intros Hst Hph next. subst next. unfold gameReducer.
  rewrite (notIn_false _ _ Hst Hph).
  unfold mbind, M_bind. rewrite Hdraw by (case_bool_decide; exact Hdeck).
  cbn [fst snd mret M_ret].
  rewrite withWinLossCheck_phase, withWinLossCheck_deck,
    withWinLossCheck_discard, withWinLossCheck_activeThreats,
    withWinLossCheck_crew, withWinLossCheck_shields,
    withWinLossCheck_drawnCard.
  case_bool_decide; cbn; rewrite ?Hdeck; done.
Qed.

Lemma empty_deck_draw_is_noop_witness :
  deck emptyDeckScenario = []
  ∧ drawAndProcessCard emptyDeckScenario quietWorld
    = (emptyDeckScenario, quietWorld)
  ∧ phase (gameReducer emptyDeckScenario END_ASSIGN_PHASE quietWorld).1
    = drawing.
Proof.
  split; [reflexivity|].
  destruct (empty_deck_draw_is_noop emptyDeckScenario quietWorld eq_refl)
    as (_ & Hdraw & Hend).
  split; [exact Hdraw|]. exact (proj1 (Hend eq_refl eq_refl)).
Defined.

(** ** The activation pass *)

Lemma sort_by_singleton {A} (cmp : A → A → Z) (x : A) : sort_by cmp [x] = [x].
Proof. reflexivity. Qed.

(** C8, as amended.  With hull 8, shields 0 and a single live Pirates card
    (health 4, no stasis token), a rolled skull leaves hull 6 and shields 0;
    the activation damages the ship only, and the threat is returned as it
    was, its health still 4. *)
Theorem pirates_activation_hits_ship_only (st : GameState) (t : ActiveThreat) :
  hull st = 8 → shields st = 0 → activeThreats st = [t] →
  card t = PIRATES → health t = 4 → stasisTokens t = 0 →
  isDestroyed t = false →
  let r := activateThreats st skull in
  ar_hull r = 6 ∧ ar_shields r = 0
  ∧ ar_threats r = [t] ∧ health <$> ar_threats r = [4].
Proof.
  intros Hh Hs Hts Hc Hhe Hst Hd r. subst r.
  unfold activateThreats. rewrite Hh, Hs, Hts, sort_by_singleton.
  cbn [foldl]. unfold activateOne. rewrite Hc, Hd.
  cbn [kind activation isBarrier PIRATES ar_threats negb andb].
  rewrite !bool_decide_eq_false_2 by (by intros ?; congruence).
  rewrite find_by_cons, decide_True by done. rewrite Hst.
  rewrite bool_decide_eq_false_2 by lia.
  unfold activationEffect. rewrite Hc. cbn. by rewrite Hhe.
Qed.

Lemma pirates_activation_hits_ship_only_witness :
  let r := activateThreats piratesScenario skull in
  ar_hull r = 6 ∧ ar_shields r = 0
  ∧ ar_threats r = [piratesThreat] ∧ health <$> ar_threats r = [4].
Proof.
  apply (pirates_activation_hits_ship_only piratesScenario piratesThreat);
    reflexivity.
Defined.

(** C8 as stated fails: in the scenario the hull does drop to 6, but the
    health of the Pirates card is 4 after the pass, not 2. *)
Lemma pirates_health_counterexample :
  ¬ (let r := activateThreats piratesScenario skull in
     ar_hull r = 6
     ∧ health <$> find_by (λ t, threat_id t = "pirates-1") (ar_threats r)
       = Some 2).
Proof. vm_compute. intros [_ H]. discriminate H. Qed.

Section ListFacts.

Context {A : Type}.

Lemma find_by_head_filter (P : A → Prop) `{∀ x, Decision (P x)}
    (l : list A) :
  find_by P l = head (filter P l).
Proof.
  induction l as [|a l IH]; [done|].
  rewrite find_by_cons, filter_cons. by destruct (decide (P a)).
Qed.

Lemma filter_none (P : A → Prop) `{∀ x, Decision (P x)} (l : list A) :
  (∀ x, x ∈ l → ¬ P x) → filter P l = [].
Proof.
  induction l as [|a l IH]; intros Hl; [done|].
  rewrite filter_cons, decide_False by (apply Hl; left).
  apply IH. intros x Hx. apply Hl. by right.
Qed.

(** In a list without duplicate keys the entries carrying the key of [x]
    are [x] alone. *)
Lemma filter_key_unique {B} `{EqDecision B} (f : A → B) (l : list A) x :
  NoDup (f <$> l) → x ∈ l → filter (λ y, f y = f x) l = [x].
Proof.
  induction l as [|a l IH]; intros Hnd Hin; [by apply elem_of_nil in Hin|].
  rewrite fmap_cons in Hnd. apply NoDup_cons in Hnd as [Hfresh Hnd].
  rewrite filter_cons. apply elem_of_cons in Hin as [->|Hin].
  - rewrite decide_True by done. f_equal. apply filter_none.
    intros y Hy Heq. apply Hfresh. rewrite <- Heq.
    by apply list_elem_of_fmap_2.
  - rewrite decide_False; [by apply IH|].
    intros Heq. apply Hfresh. rewrite Heq. by apply list_elem_of_fmap_2.
Qed.

(** A map that fixes the selected entries and does not move entries in or
    out of the selection commutes away under the filter. *)
Lemma filter_fmap_fixed (P : A → Prop) `{∀ x, Decision (P x)}
    (g : A → A) (l : list A) :
  (∀ x, P (g x) ↔ P x) → (∀ x, P x → g x = x) →
  filter P (g <$> l) = filter P l.
Proof.
  intros Hiff Hfix. induction l as [|a l IH]; [done|].
  rewrite fmap_cons, !filter_cons, IH.
  destruct (decide (P a)) as [Ha|Ha].
  - rewrite decide_True by (by apply Hiff). by rewrite Hfix.
  - rewrite decide_False; [done|]. by rewrite Hiff.
Qed.

Lemma filter_fmap_stable (P : A → Prop) `{∀ x, Decision (P x)}
    (g : A → A) (l : list A) :
  (∀ x, P (g x) ↔ P x) → filter P (g <$> l) = g <$> filter P l.
Proof.
  intros Hiff. induction l as [|a l IH]; [done|].
  rewrite fmap_cons, !filter_cons, IH.
  destruct (decide (P a)) as [Ha|Ha].
  - by rewrite decide_True by (by apply Hiff).
  - rewrite decide_False; [done|]. by rewrite Hiff.
Qed.

Lemma insert_sorted_Permutation (cmp : A → A → Z) x l :
  insert_sorted cmp x l ≡ₚ x :: l.
Proof.
  induction l as [|y l IH]; [done|]. cbn.
  destruct (cmp x y <=? 0); [done|]. rewrite IH. apply Permutation_swap.
Qed.

Lemma insert_sorted_front (cmp : A → A → Z) x l :
  (∀ y, head l = Some y → cmp x y ≤ 0) → insert_sorted cmp x l = x :: l.
Proof.
  destruct l as [|y l]; [done|]. intros Hy. cbn.
  by rewrite (proj2 (Z.leb_le _ _) (Hy y eq_refl)).
Qed.

Lemma insert_sorted_skip (cmp : A → A → Z) x l k :
  Forall (λ y, 0 < cmp x y) l →
  insert_sorted cmp x (l ++ k) = l ++ insert_sorted cmp x k.
Proof.
  induction 1 as [|y l Hy _ IH]; [done|]. cbn.
  rewrite (proj2 (Z.leb_gt _ _) Hy). by rewrite IH.
Qed.

(** The sort reorders, it neither drops nor duplicates. *)
Lemma sort_by_Permutation (cmp : A → A → Z) l : sort_by cmp l ≡ₚ l.
Proof.
  induction l as [|x l IH]; [done|].
  unfold sort_by in *. cbn. by rewrite insert_sorted_Permutation, IH.
Qed.

End ListFacts.

(** The order of the activation pass: every internal threat before every
    other one, each group in the order of the list. *)
Lemma sort_by_internalFirst (l : list ActiveThreat) :
  sort_by internalFirst l
  = filter (λ t, kind (card t) = internal) l
      ++ filter (λ t, kind (card t) ≠ internal) l.
Proof.
  induction l as [|x l IH]; [done|].
  change (sort_by internalFirst (x :: l))
    with (insert_sorted internalFirst x (sort_by internalFirst l)).
  rewrite IH, !filter_cons. clear IH.
  destruct (decide (kind (card x) = internal)) as [Hx|Hx].
  - rewrite decide_False by tauto. apply insert_sorted_front.
    intros y _. unfold internalFirst.
    rewrite (bool_decide_eq_true_2 _ Hx). case_bool_decide; lia.
  - rewrite decide_True by done. rewrite insert_sorted_skip.
    + f_equal. apply insert_sorted_front. intros y Hy.
      apply head_Some_elem_of, list_elem_of_filter in Hy as [Hy _].
      unfold internalFirst. rewrite !bool_decide_eq_false_2 by done. lia.
    + apply Forall_forall. intros y [Hy _]%list_elem_of_filter.
      unfold internalFirst.
      rewrite (bool_decide_eq_false_2 _ Hx), (bool_decide_eq_true_2 _ Hy).
      lia.
Qed.

(** *** One step of the activation loop *)

Lemma ar_sendToInfirmary_eq n r :
  ar_sendToInfirmary n r
  = ar_setLog (sendToInfirmary (ar_crew r) n (ar_log r)).2
      (ar_setCrew (sendToInfirmary (ar_crew r) n (ar_log r)).1 r).
Proof. unfold ar_sendToInfirmary. by destruct (sendToInfirmary _ _ _). Qed.

Lemma ids_fmap_preserved (g : CrewDie → CrewDie) (crew : list CrewDie) :
  (∀ d, die_id (g d) = die_id d) → die_id <$> (g <$> crew) = die_id <$> crew.
Proof.
  intros Hg. rewrite <- list_fmap_compose. apply list_fmap_ext.
  intros _ d _. apply Hg.
Qed.

Lemma sendToInfirmary_loop_ids crew count sent :
  die_id <$> (sendToInfirmary_loop crew count sent).1 = die_id <$> crew.
Proof.
  revert sent. induction crew as [|d crew IH]; intros sent; [done|]. cbn.
  repeat case_bool_decide; [| |done].
  - specialize (IH (sent + 1)).
    destruct (sendToInfirmary_loop crew count (sent + 1)). cbn in *.
    by rewrite IH.
  - specialize (IH sent).
    destruct (sendToInfirmary_loop crew count sent). cbn in *. by rewrite IH.
Qed.

Lemma sendToInfirmary_ids crew count log :
  die_id <$> (sendToInfirmary crew count log).1 = die_id <$> crew.
Proof.
  unfold sendToInfirmary.
  pose proof (sendToInfirmary_loop_ids crew count 0) as H.
  by destruct (sendToInfirmary_loop crew count 0).
Qed.

(** What a hit does to the sum of hull and shields. *)
Lemma ar_damage_potential hullDmg shieldDmg r :
  0 ≤ hullDmg → 0 ≤ shieldDmg → 0 ≤ ar_hull r → 0 ≤ ar_shields r →
  let r' := ar_damage hullDmg shieldDmg r in
  0 ≤ ar_hull r' ∧ 0 ≤ ar_shields r'
  ∧ ar_hull r' + ar_shields r'
    = Z.max 0 (ar_hull r + ar_shields r - (hullDmg + shieldDmg)).
Proof.
  intros Hh Hs H1 H2 r'. subst r'. unfold ar_damage. cbn [ar_hull ar_shields].
  destruct (applyDamage_values (ar_hull r) (ar_shields r) hullDmg shieldDmg)
    as [-> ->]; [done..|]. lia.
Qed.

(** Goals [die_id <$> (g <$> crew) = die_id <$> crew] for a [g] that only
    rewrites locations or faces. *)
Ltac ids_pointwise :=
  intros ?;
  repeat match goal with
         | |- context [if ?b then _ else _] => destruct b
         | |- context [match ?o with Some _ => _ | None => _ end] => destruct o
         end;
  reflexivity.

Ltac ids_map :=
  unfold id;
  repeat (rewrite ids_fmap_preserved by ids_pointwise); reflexivity.

Ltac activation_cases :=
  unfold activationEffect; rewrite ?ar_sendToInfirmary_eq;
  repeat case_match;
  cbn [ar_hull ar_shields ar_threats ar_crew ar_log ar_extraDraw
       ar_setThreats ar_setCrew ar_setLog ar_pushLog ar_setExtraDraw].

Section ActivationStep.

Variable rolled : ThreatSymbol.

Lemma activateOne_skip r t :
  activation (card t) ≠ rolled → activateOne rolled r t = r.
Proof.
  intros Hne. unfold activateOne. case_bool_decide; [done|].
  by rewrite bool_decide_eq_true_2.
Qed.

(** A step for threat [t] edits only entries of the running threat list
    that carry the id of [t]. *)
Lemma activateOne_entry_other r t i :
  threat_id t ≠ i →
  filter (λ x, threat_id x = i) (ar_threats (activateOne rolled r t))
  = filter (λ x, threat_id x = i) (ar_threats r).
Proof.
  intros Hne. unfold activateOne. activation_cases; try reflexivity.
  all: try (apply list_filter_filter_l; intros x; congruence).
  all: apply filter_fmap_fixed; intros x;
    (destruct (decide (threat_id x = threat_id t)) as [E|E];
     [rewrite (bool_decide_eq_true_2 _ E)
     |rewrite (bool_decide_eq_false_2 _ E)]);
    cbn; try done; intros; congruence.
Qed.

(** A step never raises hull plus shields, and keeps both non-negative. *)
Lemma activateOne_potential r t :
  0 ≤ ar_hull r → 0 ≤ ar_shields r →
  let r' := activateOne rolled r t in
  0 ≤ ar_hull r' ∧ 0 ≤ ar_shields r'
  ∧ ar_hull r' + ar_shields r' ≤ ar_hull r + ar_shields r.
Proof.
  intros H1 H2 r'. subst r'. unfold activateOne. activation_cases;
    try (repeat split; (done || lia)).
  all: match goal with
       | |- context [ar_damage ?h ?s ?x] =>
           destruct (ar_damage_potential h s x) as (? & ? & ?);
             [lia|lia|exact H1|exact H2|];
           cbn [ar_hull ar_shields ar_setThreats ar_pushLog ar_setLog] in *;
           repeat split; lia
       end.
Qed.

(** A step relocates dice and never adds, drops or renumbers one. *)
Lemma activateOne_crew_ids r t :
  die_id <$> ar_crew (activateOne rolled r t) = die_id <$> ar_crew r.
Proof.
  unfold activateOne. activation_cases; try reflexivity.
  all: try apply sendToInfirmary_ids.
  all: ids_map.
Qed.

(** The step of a barrier without stasis token whose symbol was rolled. *)
Lemma activateOne_barrier r b :
  kind (card b) = boss_barrier → activation (card b) = rolled →
  isBarrier (card b) = true → stasisTokens b = 0 →
  filter (λ x, threat_id x = threat_id b) (ar_threats r) = [b] →
  activateOne rolled r b
  = ar_pushLog ["Ouroboros Barrier regenerated to full health!"]
      (ar_damage 2 0
         (ar_setThreats
            ((λ t, if bool_decide (threat_id t = threat_id b)
                   then with_health (maxHealth (card t)) false t else t)
               <$> ar_threats r)
            (ar_pushLog [name (card b) +:+ " activates!"] r))).
Proof.
  intros Hk Ha Hb Hs He. unfold activateOne.
  rewrite Hk, Hb, find_by_head_filter, He. cbn [head]. rewrite Hs.
  rewrite !bool_decide_eq_false_2 by (done || lia || tauto).
  rewrite andb_false_r. reflexivity.
Qed.

End ActivationStep.

(** *** The whole pass *)

Section ActivationPass.

Variable rolled : ThreatSymbol.

Abbreviation pass := (foldl (activateOne rolled)).

Lemma pass_entry_other l r i :
  Forall (λ t, threat_id t ≠ i) l →
  filter (λ x, threat_id x = i) (ar_threats (pass r l))
  = filter (λ x, threat_id x = i) (ar_threats r).
Proof.
  intros Hl. revert r. induction Hl as [|t l Ht _ IH]; intros r; [done|].
  cbn. rewrite IH. by apply activateOne_entry_other.
Qed.

Lemma pass_potential l r :
  0 ≤ ar_hull r → 0 ≤ ar_shields r →
  0 ≤ ar_hull (pass r l) ∧ 0 ≤ ar_shields (pass r l)
  ∧ ar_hull (pass r l) + ar_shields (pass r l) ≤ ar_hull r + ar_shields r.
Proof.
  revert r. induction l as [|t l IH]; intros r H1 H2; [cbn; lia|]. cbn.
  destruct (activateOne_potential rolled r t H1 H2) as (H3 & H4 & H5).
  destruct (IH _ H3 H4) as (? & ? & ?). lia.
Qed.

Lemma pass_skip l r :
  Forall (λ t, activation (card t) ≠ rolled) l → pass r l = r.
Proof.
  induction 1 as [|t l Ht _ IH]; [done|]. cbn.
  by rewrite activateOne_skip.
Qed.

Lemma pass_crew_ids l r :
  die_id <$> ar_crew (pass r l) = die_id <$> ar_crew r.
Proof.
  revert r. induction l as [|t l IH]; intros r; [done|]. cbn.
  by rewrite IH, activateOne_crew_ids.
Qed.

End ActivationPass.

Lemma activateThreats_crew_ids st rolled :
  die_id <$> ar_crew (activateThreats st rolled) = die_id <$> crew st.
Proof. unfold activateThreats. by rewrite pass_crew_ids. Qed.

(** C7.  Let the active threats carry distinct instance ids and contain a
    boss-barrier [b] without stasis token whose activation symbol is the
    rolled one; [b] may be destroyed with health 0.  After the activation
    pass the entry of [b] has [health = maxHealth (card b)] and
    [isDestroyed = false], its other fields being those of [b].  Its hit of
    2 hull damage is part of the pass: with a non-negative hull and shields
    the ship ends with at most [hull + shields - 2] (at most 0 if that is
    negative), and when no other threat answers the roll the ship is
    exactly [applyDamage hull shields 2 0], the two-stage rule with shields
    absorbing first. *)
Theorem barrier_regenerates_and_fires
    (st : GameState) (b : ActiveThreat) (rolled : ThreatSymbol) :
  b ∈ activeThreats st →
  NoDup (threat_id <$> activeThreats st) →
  kind (card b) = boss_barrier → isBarrier (card b) = true →
  activation (card b) = rolled → stasisTokens b = 0 →
  let r := activateThreats st rolled in
  find_by (λ t, threat_id t = threat_id b) (ar_threats r)
    = Some {| threat_id := threat_id b; card := card b;
              health := maxHealth (card b);
              stasisTokens := stasisTokens b;
              awayMission := awayMission b; isDestroyed := false |}
  ∧ (0 ≤ hull st → 0 ≤ shields st →
     0 ≤ ar_hull r ∧ 0 ≤ ar_shields r
     ∧ ar_hull r + ar_shields r ≤ Z.max 0 (hull st + shields st - 2))
  ∧ ((∀ t, t ∈ activeThreats st → t ≠ b → activation (card t) ≠ rolled) →
     ar_hull r = sd_hull (applyDamage (hull st) (shields st) 2 0)
     ∧ ar_shields r = sd_shields (applyDamage (hull st) (shields st) 2 0)).
Proof.
  intros Hin Hnd Hk Hb Ha Hs r. subst r. unfold activateThreats.
  set (init := {| ar_hull := hull st; ar_shields := shields st;
                  ar_threats := activeThreats st; ar_crew := crew st;
                  ar_log := []; ar_extraDraw := false |}).
  pose proof (sort_by_Permutation internalFirst (activeThreats st)) as Hperm.
  assert (b ∈ sort_by internalFirst (activeThreats st)) as Hin'
    by (by rewrite Hperm).
  apply list_elem_of_split in Hin' as (l1 & l2 & Hsplit).
  assert (Forall (λ t, threat_id t ≠ threat_id b) l1
          ∧ Forall (λ t, threat_id t ≠ threat_id b) l2) as [Hl1 Hl2].
  { rewrite <- Hperm, Hsplit, fmap_app, fmap_cons in Hnd.
    apply NoDup_app in Hnd as (_ & Hdisj & [Hfresh _]%NoDup_cons).
    split; apply Forall_forall; intros t Ht Heq.
    - apply (Hdisj (threat_id t)); [by apply list_elem_of_fmap_2|].
      rewrite Heq. left.
    - apply Hfresh. rewrite <- Heq. by apply list_elem_of_fmap_2. }
  rewrite Hsplit, foldl_app. cbn [foldl].
  set (r0 := foldl (activateOne rolled) init l1).
  assert (filter (λ x, threat_id x = threat_id b) (ar_threats r0) = [b])
    as Hentry.
  { unfold r0. rewrite pass_entry_other by done. cbn.
    by apply (filter_key_unique threat_id). }
  rewrite (activateOne_barrier rolled r0 b Hk Ha Hb Hs Hentry).
  set (r1 := ar_pushLog _ _).
  split; [|split].
  - rewrite find_by_head_filter, pass_entry_other by done.
    unfold r1. cbn [ar_threats ar_pushLog ar_setLog ar_damage ar_setThreats].
    rewrite filter_fmap_stable, Hentry.
    + cbn. by rewrite bool_decide_eq_true_2.
    + intros x. by case_bool_decide.
  - intros Hh Hsh.
    destruct (pass_potential rolled l1 init Hh Hsh) as (H1 & H2 & H3).
    fold r0 in H1, H2, H3. cbn [init ar_hull ar_shields] in H3.
    destruct (ar_damage_potential 2 0
                (ar_setThreats
                   ((λ t, if bool_decide (threat_id t = threat_id b)
                          then with_health (maxHealth (card t)) false t
                          else t) <$> ar_threats r0)
                   (ar_pushLog [name (card b) +:+ " activates!"] r0)))
      as (H4 & H5 & H6); [lia|lia|exact H1|exact H2|].
    cbn [ar_hull ar_shields ar_setThreats ar_pushLog ar_setLog] in H6.
    assert (ar_hull r1 = ar_hull (ar_damage 2 0
              (ar_setThreats
                 ((λ t, if bool_decide (threat_id t = threat_id b)
                        then with_health (maxHealth (card t)) false t
                        else t) <$> ar_threats r0)
                 (ar_pushLog [name (card b) +:+ " activates!"] r0))))
      as Hr1h by reflexivity.
    assert (ar_shields r1 = ar_shields (ar_damage 2 0
              (ar_setThreats
                 ((λ t, if bool_decide (threat_id t = threat_id b)
                        then with_health (maxHealth (card t)) false t
                        else t) <$> ar_threats r0)
                 (ar_pushLog [name (card b) +:+ " activates!"] r0))))
      as Hr1s by reflexivity.
    rewrite <- Hr1h in H4, H6. rewrite <- Hr1s in H5, H6.
    destruct (pass_potential rolled l2 r1 H4 H5) as (? & ? & ?). lia.
  - intros Hothers.
    assert (∀ l, Forall (λ t, threat_id t ≠ threat_id b) l →
                 (∀ t, t ∈ l → t ∈ sort_by internalFirst (activeThreats st)) →
                 Forall (λ t, activation (card t) ≠ rolled) l) as Hquiet.
    { intros l Hl Hsub. apply Forall_forall. intros t Ht.
      apply Hothers; [rewrite <- Hperm; by apply Hsub|].
      intros ->. by apply (proj1 (Forall_forall _ _) Hl b Ht). }
    rewrite (pass_skip rolled l2 r1).
    2:{ apply Hquiet; [done|]. intros t Ht. rewrite Hsplit.
        apply elem_of_app. right. by right. }
    unfold r1, r0. rewrite (pass_skip rolled l1 init).
    2:{ apply Hquiet; [done|]. intros t Ht. rewrite Hsplit.
        apply elem_of_app. by left. }
    done.
Qed.

Lemma barrier_regenerates_and_fires_witness :
  let r := activateThreats barrierScenario alien in
  find_by (λ t, threat_id t = "ouroboros-barrier-1") (ar_threats r)
    = Some {| threat_id := "ouroboros-barrier-1"; card := OUROBOROS_BARRIER;
              health := 4; stasisTokens := 0; awayMission := [];
              isDestroyed := false |}
  ∧ ar_hull r = 8 ∧ ar_shields r = 2.
Proof.
  destruct (barrier_regenerates_and_fires barrierScenario fallenBarrier alien)
    as (Hregen & _ & Hexact).
  - right. left.
  - apply (bool_decide_unpack _). vm_compute. exact I.
  - reflexivity.
  - reflexivity.
  - reflexivity.
  - reflexivity.
  - split; [exact Hregen|]. apply Hexact.
    intros t [->|[->|[]%elem_of_nil]%elem_of_cons]%elem_of_cons;
      [discriminate|done].
Defined.

(** ** The crew through the reducer *)

(** Running a bind: the continuation is applied to the two components of
    the first computation. *)
Lemma bind_run {A B} (m : M A) (f : A → M B) (w : World) :
  ((m ≫= f) : M B) w = f (m w).1 (m w).2.
Proof. unfold mbind, M_bind. by destruct (m w). Qed.

Lemma ret_run {A} (a : A) (w : World) : (mret a : M A) w = (a, w).
Proof. reflexivity. Qed.

Section CrewIds.

Implicit Types (crew : list CrewDie) (s : GameState) (w : World).

Lemma resolveMedical_ids crew :
  die_id <$> resolveMedical crew = die_id <$> crew.
Proof. unfold resolveMedical. ids_map. Qed.

Lemma releaseFromScanners_ids crew :
  die_id <$> releaseFromScanners crew = die_id <$> crew.
Proof.
  unfold releaseFromScanners. generalize false.
  induction crew as [|d crew IH]; intros released; [done|]. cbn.
  destruct (negb released && _); cbn; by rewrite IH.
Qed.

Lemma commanderChangeDie_ids crew dieId newFace :
  die_id <$> commanderChangeDie crew dieId newFace = die_id <$> crew.
Proof. unfold commanderChangeDie. ids_map. Qed.

Lemma resolveThreat_ids threats crew threatId :
  die_id <$> (resolveThreat threats crew threatId).2 = die_id <$> crew.
Proof. unfold resolveThreat. cbn. ids_map. Qed.

Lemma processScanners_ids crew :
  die_id <$> sc_crew (processScanners crew) = die_id <$> crew.
Proof.
  unfold processScanners. case_bool_decide; [done|]. cbn. ids_map.
Qed.

Lemma gatherCrew_ids crew threats :
  die_id <$> gatherCrew crew threats = die_id <$> crew.
Proof.
  unfold gatherCrew. apply ids_fmap_preserved. intros d.
  repeat case_match; reflexivity.
Qed.

Lemma processResolvedThreats_ids s :
  die_id <$> crew (processResolvedThreats s) = die_id <$> crew s.
Proof.
  unfold processResolvedThreats. generalize (activeThreats s) at 1.
  intros l. revert s. induction l as [|t l IH]; intros s; [done|].
  cbn [foldl]. rewrite IH. repeat case_match; try reflexivity.
  cbn. match goal with
       | H : resolveThreat _ _ _ = _ |- _ =>
           pose proof (resolveThreat_ids (activeThreats s) (crew s)
                         (threat_id t)) as Hids;
           rewrite H in Hids; exact Hids
       end.
Qed.

Lemma applyRevealEffect_crew_ids s c w :
  die_id <$> default (crew s) (re_crew (applyRevealEffect s c w).1)
  = die_id <$> crew s.
Proof.
  unfold applyRevealEffect.
  repeat (case_match; try reflexivity); rewrite ?bind_run, ?ret_run;
    cbn [fst snd re_crew default]; try reflexivity.
  all: repeat (case_match; rewrite ?ret_run; cbn [fst snd re_crew default];
               try reflexivity).
  all: ids_map.
Qed.

Lemma drawAndProcessCard_crew_ids s w :
  die_id <$> crew (drawAndProcessCard s w).1 = die_id <$> crew s.
Proof.
  unfold drawAndProcessCard.
  destruct (drawCard (deck s)) as [[c remainingDeck]|]; [|done].
  case_bool_decide; [done|].
  rewrite !bind_run.
  set (e := (applyRevealEffect _ c w).1).
  match goal with |- context [let '(_, _) := ?p in _] => destruct p end.
  rewrite ret_run. cbn.
  apply (applyRevealEffect_crew_ids
           (s <| set_deck := remainingDeck |>
              <| set_log := log s ++
                   ["Threat card drawn: " +:+ name c +:+ "."] |>) c w).
Qed.

Lemma scannerDraws_crew_ids todo i n s w :
  die_id <$> crew (scannerDraws todo i n s w).1 = die_id <$> crew s.
Proof.
  revert i s w. induction todo as [|todo IH]; intros i s w; [done|].
  cbn [scannerDraws]. rewrite bind_run, IH. cbn.
  apply drawAndProcessCard_crew_ids.
Qed.

Lemma rerollDraws_crew_ids todo s w :
  die_id <$> crew (rerollDraws todo s w).1 = die_id <$> crew s.
Proof.
  revert s w. induction todo as [|todo IH]; intros s w; [done|].
  cbn [rerollDraws]. rewrite bind_run, IH.
  apply drawAndProcessCard_crew_ids.
Qed.

Lemma startNewGame_crew_ids difficulty w :
  die_id <$> crew (startNewGame difficulty w).1 = [0; 1; 2; 3; 4; 5].
Proof.
  unfold startNewGame. rewrite bind_run.
  destruct (buildDeck difficulty w) as [deck0 w0]. cbn [fst snd].
  rewrite bind_run, ret_run. cbn [fst].
  rewrite withWinLossCheck_crew, withPassiveFlags_crew. cbn [crew set_phase].
  rewrite drawAndProcessCard_crew_ids. reflexivity.
Qed.

End CrewIds.

Ltac crew_frames :=
  repeat (progress
    (rewrite ?bind_run, ?ret_run; cbn [fst snd];
     rewrite ?withWinLossCheck_crew, ?withPassiveFlags_crew,
       ?scannerDraws_crew_ids, ?rerollDraws_crew_ids,
       ?drawAndProcessCard_crew_ids, ?processResolvedThreats_ids,
       ?activateThreats_crew_ids, ?processScanners_ids, ?gatherCrew_ids,
       ?resolveMedical_ids, ?releaseFromScanners_ids,
       ?commanderChangeDie_ids;
     cbn [crew set_status set_phase set_difficulty set_hull set_maxHull
          set_shields set_maxShields set_crew set_activeThreats set_deck
          set_discard set_threatDieFace set_selectedDieId set_tacticalDice
          set_log set_lossReason set_turnNumber set_elapsedSeconds
          set_drawnCard set_nebulaActive set_commsOfflineActive
          set_setupDrawsRemaining set_usedStationActions])).

(** Every action but NEW_GAME and the raw state load keeps the list of die
    ids: dice are relocated and re-faced, never added, dropped or
    renumbered. *)
Lemma gameReducer_crew_ids state action w :
  (∀ d, action ≠ NEW_GAME d) → (∀ l, action ≠ TEST_LOAD_STATE l) →
  die_id <$> crew (gameReducer state action w).1 = die_id <$> crew state.
Proof.
  intros Hnew Hload.
  destruct action;
    try (by first [exfalso; by eapply Hnew | exfalso; by eapply Hload]);
    unfold gameReducer.
  all: repeat (case_match; try reflexivity).
  all: crew_frames; try reflexivity.
  all: repeat (rewrite ids_fmap_preserved by ids_pointwise);
    rewrite ?commanderChangeDie_ids; reflexivity.
Qed.

(** A die is counted in exactly one place: the pool, one of the seven
    stations, or an away mission. *)
Lemma crew_counts_partition (crew : list CrewDie) :
  (commanderRerollCount crew
   + countAtStation crew st_commander + countAtStation crew st_tactical
   + countAtStation crew st_engineering + countAtStation crew st_medical
   + countAtStation crew st_science + countAtStation crew st_scanners
   + countAtStation crew st_infirmary
   + length (filter (λ d, startsWith_threat (location d) = true) crew))%nat
  = length crew.
Proof.
  unfold commanderRerollCount, countAtStation, getDiceAtStation.
  induction crew as [|d crew IH]; [done|].
  rewrite !filter_cons.
  destruct (location d) as [|[]|i]; cbn [startsWith_threat];
    repeat first [rewrite decide_True by done
                 |rewrite decide_False by done];
    cbn [length]; lia.
Qed.

(** C6.  From a state whose crew holds exactly 6 dice with distinct ids,
    every action other than the raw state load yields a state whose crew
    again holds exactly 6 dice with distinct ids, and whose dice are each in
    exactly one place: the counts of the pool, of the seven stations and of
    the away missions add up to 6. *)
Theorem reducer_keeps_six_distinct_dice
    (state : GameState) (action : GameAction) (w : World) :
  (∀ loaded, action ≠ TEST_LOAD_STATE loaded) →
  length (crew state) = 6%nat →
  NoDup (die_id <$> crew state) →
  let next := (gameReducer state action w).1 in
  length (crew next) = 6%nat
  ∧ NoDup (die_id <$> crew next)
  ∧ (commanderRerollCount (crew next)
     + countAtStation (crew next) st_commander
     + countAtStation (crew next) st_tactical
     + countAtStation (crew next) st_engineering
     + countAtStation (crew next) st_medical
     + countAtStation (crew next) st_science
     + countAtStation (crew next) st_scanners
     + countAtStation (crew next) st_infirmary
     + length (filter (λ d, startsWith_threat (location d) = true)
                      (crew next)))%nat = 6%nat.
Proof.
  intros Hload Hlen Hnd next.
  assert (length (crew next) = 6%nat ∧ NoDup (die_id <$> crew next))
    as [Hlen' Hnd'].
  { assert (die_id <$> crew next = die_id <$> crew state
            ∨ die_id <$> crew next = [0; 1; 2; 3; 4; 5]) as [Hids|Hids].
    { subst next.
      destruct action as [d| | | | | | | | | | | | | | | | | | | | |];
        [right; apply startNewGame_crew_ids
        |left; by apply gameReducer_crew_ids..]. }
    - rewrite Hids. split; [|done].
      by rewrite <- (length_fmap die_id), Hids, length_fmap.
    - rewrite Hids. split.
      + by rewrite <- (length_fmap die_id), Hids.
      + apply (bool_decide_unpack _). vm_compute. exact I. }
  split; [done|]. split; [done|].
  by rewrite crew_counts_partition.
Qed.

Lemma reducer_keeps_six_distinct_dice_witness :
  let next := (gameReducer medicalScenario USE_MEDICAL_SCANNERS quietWorld).1 in
  length (crew next) = 6%nat ∧ NoDup (die_id <$> crew next).
Proof.
  destruct (reducer_keeps_six_distinct_dice medicalScenario
              USE_MEDICAL_SCANNERS quietWorld) as (Hlen & Hnd & _).
  - discriminate.
  - reflexivity.
  - apply (bool_decide_unpack _). vm_compute. exact I.
  - split; [exact Hlen|exact Hnd].
Defined.

(** ** The once-per-turn budget *)

Section Budget.

Implicit Types (s : GameState) (w : World).

Lemma drawAndProcessCard_used s w :
  usedStationActions (drawAndProcessCard s w).1 = usedStationActions s.
Proof.
  unfold drawAndProcessCard.
  destruct (drawCard (deck s)) as [[c remainingDeck]|]; [|done].
  case_bool_decide; [done|]. rewrite !bind_run.
  match goal with |- context [let '(_, _) := ?p in _] => destruct p end.
  reflexivity.
Qed.

Lemma scannerDraws_used todo i n s w :
  usedStationActions (scannerDraws todo i n s w).1 = usedStationActions s.
Proof.
  revert i s w. induction todo as [|todo IH]; intros i s w; [done|].
  cbn [scannerDraws]. rewrite bind_run, IH. cbn.
  apply drawAndProcessCard_used.
Qed.

Lemma rerollDraws_used todo s w :
  usedStationActions (rerollDraws todo s w).1 = usedStationActions s.
Proof.
  revert s w. induction todo as [|todo IH]; intros s w; [done|].
  cbn [rerollDraws]. rewrite bind_run, IH. apply drawAndProcessCard_used.
Qed.

Lemma processResolvedThreats_used s :
  usedStationActions (processResolvedThreats s) = usedStationActions s.
Proof.
  unfold processResolvedThreats. generalize (activeThreats s) at 1.
  intros l. revert s. induction l as [|t l IH]; intros s; [done|].
  cbn [foldl]. rewrite IH. repeat case_match; reflexivity.
Qed.

End Budget.

Ltac used_frames :=
  repeat (progress
    (rewrite ?bind_run, ?ret_run; cbn [fst snd];
     rewrite ?withWinLossCheck_used, ?withPassiveFlags_used,
       ?scannerDraws_used, ?rerollDraws_used, ?drawAndProcessCard_used,
       ?processResolvedThreats_used;
     cbn [usedStationActions set_status set_phase set_difficulty set_hull
          set_maxHull set_shields set_maxShields set_crew set_activeThreats
          set_deck set_discard set_threatDieFace set_selectedDieId
          set_tacticalDice set_log set_lossReason set_turnNumber
          set_elapsedSeconds set_drawnCard set_nebulaActive
          set_commsOfflineActive set_setupDrawsRemaining
          set_usedStationActions])).

(** Until the turn ends, a tag recorded in [usedStationActions] stays. *)
Lemma gameReducer_used_monotone state action w tag :
  endsTurn action = false →
  tag ∈ usedStationActions state →
  tag ∈ usedStationActions (gameReducer state action w).1.
Proof.
  intros Hend Htag. destruct action; try discriminate Hend;
    unfold gameReducer.
  all: repeat (case_match; try exact Htag).
  all: used_frames; try exact Htag.
  all: apply elem_of_app; by left.
Qed.

Lemma dispatchAll_used_monotone trace state w tag :
  Forall (λ a, endsTurn a = false) trace →
  tag ∈ usedStationActions state →
  tag ∈ usedStationActions (dispatchAll state trace w).1.
Proof.
  intros Htrace. revert state w.
  induction Htrace as [|a trace Ha _ IH]; intros state w Htag; [done|].
  cbn [dispatchAll]. rewrite bind_run. apply IH.
  by apply gameReducer_used_monotone.
Qed.

(** An ability whose tag is recorded is refused: the state, the instance
    counter and the random tape come back untouched. *)
Lemma budget_spent_noop state action w tag :
  budgetTag action = Some tag →
  tag ∈ usedStationActions state →
  gameReducer state action w = (state, w).
Proof.
  intros Hb Htag. destruct action; try discriminate Hb;
    injection Hb as <-; unfold gameReducer;
    destruct (notIn assigning state); try reflexivity;
    try (destruct (commsOfflineActive state); [reflexivity|]);
    by rewrite (bool_decide_eq_true_2 _ Htag).
Qed.

(** An ability that changed the state recorded its tag; the one exception
    is the shield recharge refused under Nebula, which only logs. *)
Lemma budget_recorded state action w tag :
  budgetTag action = Some tag →
  (gameReducer state action w).1 ≠ state →
  (action = USE_SCIENCE_SHIELDS → nebulaActive state = false) →
  tag ∈ usedStationActions (gameReducer state action w).1.
Proof.
  intros Hb Hchg Hneb. destruct action; try discriminate Hb;
    injection Hb as <-; revert Hchg; unfold gameReducer.
  all: repeat (case_match; try (by intros [])).
  all: try (by specialize (Hneb eq_refl)).
  all: intros _; used_frames; apply elem_of_app; right; left.
Qed.

(** C9, as amended.  The abilities that carry a budget tag are Medical's
    recover-all (USE_MEDICAL), Science's two abilities (one shared tag) and
    Commander's two abilities (one shared tag).  If dispatching one of them
    changes the state, its tag is recorded (except for a shield recharge
    refused under Nebula); and once the tag is recorded, after any sequence
    of further actions that does not end the turn (no gather
    acknowledgement, new game or state load), dispatching an ability with
    the same tag returns the state, and the ambient world, unchanged. *)
Theorem station_budget_once_per_turn
    (state : GameState) (w : World) (a b : GameAction)
    (trace : list GameAction) (tag : string) :
  budgetTag a = Some tag → budgetTag b = Some tag →
  Forall (λ x, endsTurn x = false) trace →
  let s1 := gameReducer state a w in
  (s1.1 ≠ state → (a = USE_SCIENCE_SHIELDS → nebulaActive state = false) →
   tag ∈ usedStationActions s1.1)
  ∧ (tag ∈ usedStationActions s1.1 →
     let s2 := dispatchAll s1.1 trace s1.2 in
     gameReducer s2.1 b s2.2 = s2).
Proof.
  intros Ha Hb Htrace s1. split.
  - by apply budget_recorded.
  - intros Htag s2. rewrite (surjective_pairing s2) at 3.
    apply (budget_spent_noop _ _ _ tag Hb).
    by apply dispatchAll_used_monotone.
Qed.

Lemma station_budget_once_per_turn_witness :
  let s1 := gameReducer medicalScenario USE_MEDICAL quietWorld in
  let s2 :=
    dispatchAll s1.1 [USE_MEDICAL_SCANNERS; SELECT_DIE (Some 4)] s1.2 in
  "USE_MEDICAL" ∈ usedStationActions s1.1
  ∧ gameReducer s2.1 USE_MEDICAL s2.2 = s2.
Proof.
  destruct (station_budget_once_per_turn medicalScenario quietWorld
              USE_MEDICAL USE_MEDICAL
              [USE_MEDICAL_SCANNERS; SELECT_DIE (Some 4)] "USE_MEDICAL")
    as [Hrec Hnoop].
  - reflexivity.
  - reflexivity.
  - repeat constructor.
  - assert ("USE_MEDICAL"
            ∈ usedStationActions
                (gameReducer medicalScenario USE_MEDICAL quietWorld).1)
      as Htag.
    { apply Hrec; [|discriminate]. intros H.
      apply (f_equal usedStationActions) in H. vm_compute in H.
      discriminate H. }
    split; [exact Htag|]. exact (Hnoop Htag).
Defined.

(** C9 as stated fails for Medical's scanner release: in the same assigning
    phase, after USE_MEDICAL has been applied, USE_MEDICAL_SCANNERS still
    releases a die, and a second USE_MEDICAL_SCANNERS releases another. *)
Lemma scanner_release_counterexample :
  let s1 := (gameReducer medicalScenario USE_MEDICAL quietWorld).1 in
  let s2 := (gameReducer s1 USE_MEDICAL_SCANNERS quietWorld).1 in
  let s3 := (gameReducer s2 USE_MEDICAL_SCANNERS quietWorld).1 in
  s1 ≠ medicalScenario
  ∧ ¬ (s2 = s1)
  ∧ ¬ (s3 = s2)
  ∧ countAtStation (crew s1) st_scanners = 2%nat
  ∧ countAtStation (crew s2) st_scanners = 1%nat
  ∧ countAtStation (crew s3) st_scanners = 0%nat.
Proof.
  cbn zeta. repeat split; try reflexivity.
  all: intros H; apply (f_equal log) in H; vm_compute in H; discriminate H.
Qed.

(** ** The illegal-action policy *)

(** X27.  An action dispatched outside a running game or outside its
    phase returns the state, the instance counter and the random tape as
    they were. *)
Lemma wrong_phase_noop state action w p :
  actionPhase action = Some p → notIn p state = true →
  gameReducer state action w = (state, w).
Proof.
  intros Hp Hnot. destruct action; try discriminate Hp;
    injection Hp as <-; unfold gameReducer; by rewrite Hnot.
Qed.

(** TICK outside a running game does nothing. *)
Lemma tick_not_playing_noop state w :
  status state ≠ playing → gameReducer state TICK w = (state, w).
Proof. intros H. unfold gameReducer. by rewrite bool_decide_eq_true_2. Qed.

(** X28.  Assigning a die that does not exist, or that is not in the pool,
    is refused, to a station as to a threat. *)
Lemma assign_absent_or_busy_die_noop state w dieId :
  (∀ d, d ∈ crew state → die_id d = dieId → location d ≠ pool) →
  (∀ stationId,
     gameReducer state (ASSIGN_TO_STATION dieId stationId) w = (state, w))
  ∧ (∀ threatId,
       gameReducer state (ASSIGN_TO_THREAT dieId threatId) w = (state, w)).
Proof.
  intros Hbusy.
  assert (∀ die, find_by (λ d, die_id d = dieId) (crew state) = Some die →
                 bool_decide (location die ≠ pool) = true) as Hfound.
  { intros die [Hin Hid]%find_by_Some. apply bool_decide_eq_true_2. eauto. }
  split; intros; unfold gameReducer; destruct (notIn assigning state);
    try reflexivity;
    destruct (find_by _ (crew state)) as [die|] eqn:Hdie; try reflexivity.
  - by rewrite (Hfound die eq_refl).
  - destruct (find_by _ (activeThreats state)); [|reflexivity].
    by rewrite (Hfound die eq_refl).
Qed.

(** X29.  Actions that name a threat instance are refused when no active
    threat carries that id. *)
Lemma absent_threat_noop state w threatId :
  Forall (λ t, threat_id t ≠ threatId) (activeThreats state) →
  (∀ dieId,
     gameReducer state (ASSIGN_TO_THREAT dieId threatId) w = (state, w))
  ∧ gameReducer state (USE_TACTICAL threatId) w = (state, w)
  ∧ gameReducer state (USE_SCIENCE_STASIS threatId) w = (state, w).
Proof.
  intros Habs.
  assert (find_by (λ t, threat_id t = threatId) (activeThreats state) = None)
    as Hnone by (by apply find_by_None).
  repeat split; intros; unfold gameReducer; rewrite Hnone;
    repeat case_match; reflexivity.
Qed.

(** X30.  The reducer applies the away-mission eligibility rule itself: a
    die that [canAssignToThreat] rejects is not placed. *)
Lemma ineligible_threat_assignment_noop state w dieId threatId die threat :
  find_by (λ d, die_id d = dieId) (crew state) = Some die →
  find_by (λ t, threat_id t = threatId) (activeThreats state) = Some threat →
  canAssignToThreat die threat state = false →
  gameReducer state (ASSIGN_TO_THREAT dieId threatId) w = (state, w).
Proof.
  intros Hd Ht Hcan. unfold gameReducer, notIn.
  rewrite Hd, Ht. unfold canAssignToThreat in Hcan.
  repeat case_match; try reflexivity; try discriminate;
    repeat match goal with
           | H : bool_decide _ = true |- _ => apply bool_decide_eq_true in H
           | H : bool_decide _ = false |- _ => apply bool_decide_eq_false in H
           | H : _ || _ = false |- _ => apply orb_false_iff in H as [? ?]
           end;
    try tauto; congruence.
Qed.

(** C1 fails on the code.  In the assigning phase of a running game, with
    Comms Offline in play (the command-disabled flag set), a tactical-face
    pool die is rejected by [canAssignToStation] for the medical station and
    for the infirmary, and a commander-face pool die is rejected for the
    commander station; yet ASSIGN_TO_STATION places each of them there.
    Likewise USE_COMMANDER_CHANGE aimed at a die id that no die carries
    spends the commander's ability instead of returning the state. *)
Theorem assign_to_station_accepts_ineligible_die :
  let placed dieId stationId :=
    (gameReducer assignScenario (ASSIGN_TO_STATION dieId stationId)
                 quietWorld).1 in
  let locationOf dieId s :=
    location <$> find_by (λ d, die_id d = dieId) (crew s) in
  let die0 := {| die_id := 0; face := face_tactical; location := pool |} in
  let die1 := {| die_id := 1; face := face_commander; location := pool |} in
  crew assignScenario !! 0%nat = Some die0
  ∧ crew assignScenario !! 1%nat = Some die1
  ∧ commsOfflineActive assignScenario = true
  (* face mismatch *)
  ∧ canAssignToStation die0 st_medical true = false
  ∧ locationOf 0 (placed 0 st_medical) = Some (at_station st_medical)
  (* non-assignable station *)
  ∧ canAssignToStation die0 st_infirmary true = false
  ∧ locationOf 0 (placed 0 st_infirmary) = Some (at_station st_infirmary)
  (* commander station while command is disabled *)
  ∧ canAssignToStation die1 st_commander true = false
  ∧ locationOf 1 (placed 1 st_commander) = Some (at_station st_commander)
  (* nonexistent die id *)
  ∧ find_by (λ d, die_id d = 999) (crew commanderScenario) = None
  ∧ usedStationActions
      (gameReducer commanderScenario (USE_COMMANDER_CHANGE 999 face_medical)
                   quietWorld).1 = ["USE_COMMANDER"].
Proof. cbn zeta. repeat split; vm_compute; reflexivity. Qed.

(** What ASSIGN_TO_STATION does do: in the assigning phase of a running
    game every pool die found by its id is placed on the named station,
    whatever its face and whatever the station. *)
Lemma assign_to_station_places_any_pool_die
    state w dieId stationId die :
  status state = playing → phase state = assigning →
  find_by (λ d, die_id d = dieId) (crew state) = Some die →
  location die = pool →
  let next := (gameReducer state (ASSIGN_TO_STATION dieId stationId) w).1 in
  find_by (λ d, die_id d = dieId) (crew next)
    = Some (with_location (at_station stationId) die)
  ∧ next ≠ state.
Proof.
  intros Hs Hp Hdie Hpool next.
  assert (find_by (λ d, die_id d = dieId) (crew next)
          = Some (with_location (at_station stationId) die)) as Hnext.
  { subst next. unfold gameReducer.
    rewrite (notIn_false _ _ Hs Hp), Hdie.
    rewrite bool_decide_eq_false_2 by (intros Hne; by apply Hne).
    rewrite ret_run. cbn [fst]. rewrite withPassiveFlags_crew. cbn [crew set_log
      set_selectedDieId set_tacticalDice set_crew].
    rewrite find_by_head_filter, filter_fmap_stable.
    - rewrite find_by_head_filter in Hdie.
      destruct (filter _ (crew state)) as [|d ds] eqn:Hf; [done|].
      injection Hdie as ->. cbn.
      assert (die ∈ filter (λ d, die_id d = dieId) (crew state)) as Hin
        by (rewrite Hf; left).
      apply list_elem_of_filter in Hin as [Hid _].
      by rewrite (bool_decide_eq_true_2 _ Hid).
    - intros d. by case_bool_decide. }
  split; [exact Hnext|].
  intros Heq. rewrite Heq, Hdie in Hnext. injection Hnext as Hbad.
  apply (f_equal location) in Hbad. rewrite Hpool in Hbad. discriminate Hbad.
Qed.

(** * Further properties of the engine *)

(** ** Dice *)

(** X1.  The tactical formula is 0 for no dice and the odd number 2n - 1 for
    n dice, so every die added to a volley adds exactly 2 damage and a
    bigger volley always hits harder. *)
Theorem calculateTacticalDamage_ladder (n : Z) :
  (n ≤ 0 → calculateTacticalDamage n = 0)
  ∧ (1 ≤ n → calculateTacticalDamage n = 2 * n - 1)
  ∧ (1 ≤ n →
     calculateTacticalDamage (n + 1) = calculateTacticalDamage n + 2)
  ∧ (∀ m, 0 ≤ n → n < m →
          calculateTacticalDamage n < calculateTacticalDamage m).
Proof.
  unfold calculateTacticalDamage.
  repeat split; intros; repeat case_match; lia.
Qed.

Lemma randomIndex_world n w :
  instanceCounter (randomIndex n w).2 = instanceCounter w
  ∧ randomTape (randomIndex n w).2 = drop 1 (randomTape w).
Proof.
  unfold randomIndex. destruct (randomTape w) as [|r tape] eqn:E; cbn;
    by rewrite ?E.
Qed.

Lemma randomIndex_bound n w : (0 < n)%nat → ((randomIndex n w).1 < n)%nat.
Proof.
  intros Hn. unfold randomIndex. destruct (randomTape w) as [|r tape];
    cbn [fst]; [done|].
  destruct n; [lia|]. apply Nat.mod_upper_bound. lia.
Qed.

(** X2.  Rolling [count] crew dice returns exactly [count] faces, reads
    exactly [count] outcomes of the random source (fewer only when it runs
    dry), and leaves the instance counter alone. *)
Theorem rollAllCrewDice_count (count : nat) (w : World) :
  let r := rollAllCrewDice count w in
  length r.1 = count
  ∧ randomTape r.2 = drop count (randomTape w)
  ∧ instanceCounter r.2 = instanceCounter w.
Proof.
  revert w. induction count as [|count IH]; intros w; [done|].
  cbn [rollAllCrewDice]. unfold rollCrewFace.
  rewrite !bind_run, !ret_run. cbn [fst snd].
  destruct (randomIndex_world (length CREW_FACE_DISTRIBUTION) w) as [Hc Ht].
  destruct (IH (randomIndex (length CREW_FACE_DISTRIBUTION) w).2)
    as (Hl & Htape & Hcnt).
  cbn zeta in *. cbn [length]. rewrite Hl, Htape, Ht, Hcnt, Hc.
  repeat split. by rewrite drop_drop.
Qed.

(** X3.  A crew die and the threat die show the entry of their table at
    the index drawn from the random source, which is always below 6, and
    consume that one outcome.  Two rolls show the same face exactly when
    they drew the same index, and every index below 6 can be drawn: the six
    faces of either die correspond one to one to the six outcomes. *)
Theorem dice_faces_are_the_tables :
  (∀ w, ((randomIndex 6 w).1 < 6)%nat
        ∧ CREW_FACE_DISTRIBUTION !! (randomIndex 6 w).1
          = Some (rollCrewFace w).1
        ∧ THREAT_FACES !! (randomIndex 6 w).1 = Some (rollThreatDie w).1
        ∧ (rollCrewFace w).2 = (randomIndex 6 w).2
        ∧ (rollThreatDie w).2 = (randomIndex 6 w).2)
  ∧ (∀ w w', (rollCrewFace w).1 = (rollCrewFace w').1
             ↔ (randomIndex 6 w).1 = (randomIndex 6 w').1)
  ∧ (∀ w w', (rollThreatDie w).1 = (rollThreatDie w').1
             ↔ (randomIndex 6 w).1 = (randomIndex 6 w').1)
  ∧ (∀ i, (i < 6)%nat → ∃ w, (randomIndex 6 w).1 = i).
Proof.
  assert (∀ w, rollCrewFace w
               = (default face_commander
                    (CREW_FACE_DISTRIBUTION !! (randomIndex 6 w).1),
                  (randomIndex 6 w).2)) as Hcrew.
  { intros w. unfold rollCrewFace. by rewrite bind_run, ret_run. }
  assert (∀ w, rollThreatDie w
               = (default skull (THREAT_FACES !! (randomIndex 6 w).1),
                  (randomIndex 6 w).2)) as Hthreat.
  { intros w. unfold rollThreatDie. by rewrite bind_run, ret_run. }
  assert (∀ w, ((randomIndex 6 w).1 < 6)%nat) as Hb
    by (intros w; apply randomIndex_bound; lia).
  split_and!.
  - intros w. rewrite Hcrew, Hthreat. cbn [fst snd].
    specialize (Hb w). destruct ((randomIndex 6 w).1) as [|[|[|[|[|[|?]]]]]];
      try lia; by repeat split.
  - intros w w'. rewrite !Hcrew. cbn [fst].
    pose proof (Hb w). pose proof (Hb w').
    destruct ((randomIndex 6 w).1) as [|[|[|[|[|[|?]]]]]]; try lia;
      destruct ((randomIndex 6 w').1) as [|[|[|[|[|[|?]]]]]]; try lia;
      cbn; split; intros; done.
  - intros w w'. rewrite !Hthreat. cbn [fst].
    pose proof (Hb w). pose proof (Hb w').
    destruct ((randomIndex 6 w).1) as [|[|[|[|[|[|?]]]]]]; try lia;
      destruct ((randomIndex 6 w').1) as [|[|[|[|[|[|?]]]]]]; try lia;
      cbn; split; intros; done.
  - intros i Hi. exists {| instanceCounter := 0; randomTape := [i] |}.
    unfold randomIndex. cbn [randomTape fst]. apply Nat.mod_small. lia.
Qed.

(** ** The deck *)

Lemma shuffle_loop_world {A} i (arr : list A) w :
  instanceCounter (shuffle_loop i arr w).2 = instanceCounter w
  ∧ randomTape (shuffle_loop i arr w).2 = drop i (randomTape w).
Proof.
  revert arr w. induction i as [|i IH]; intros arr w; [done|].
  cbn [shuffle_loop]. rewrite bind_run.
  destruct (IH (swap arr (S i) (randomIndex (S i + 1) w).1)
               (randomIndex (S i + 1) w).2) as [-> ->].
  destruct (randomIndex_world (S i + 1) w) as [-> ->].
  by rewrite drop_drop.
Qed.

(** X4.  [shuffle] returns a permutation of its input, whatever the random
    source yields: nothing is lost, duplicated or invented, the length is
    kept.  It draws exactly one outcome per position but the first and does
    not touch the instance counter. *)
Theorem shuffle_permutes {A} (items : list A) (w : World) :
  let r := shuffle items w in
  r.1 ≡ₚ items
  ∧ length r.1 = length items
  ∧ randomTape r.2 = drop (length items - 1) (randomTape w)
  ∧ instanceCounter r.2 = instanceCounter w.
Proof.
  cbn zeta. unfold shuffle.
  pose proof (shuffle_loop_Permutation (length items - 1) items w) as Hp.
  destruct (shuffle_loop_world (length items - 1) items w) as [Hc Ht].
  repeat split; try done. by rewrite Hp.
Qed.


(** ** Threat instances and the draw *)

(** X6.  A new instance starts with the card's full health, no stasis
    token, an empty away mission and not destroyed; creating it advances
    the instance counter by one, and instances of a card created at
    different counter values never share an id. *)
Theorem createActiveThreat_fresh (c : ThreatCard) (w : World) :
  let r := createActiveThreat c w in
  card r.1 = c ∧ health r.1 = maxHealth c ∧ stasisTokens r.1 = 0
  ∧ awayMission r.1 = [] ∧ isDestroyed r.1 = false
  ∧ instanceCounter r.2 = instanceCounter w + 1
  ∧ randomTape r.2 = randomTape w
  ∧ ∀ w', instanceCounter w' ≠ instanceCounter w →
          threat_id (createActiveThreat c w').1 ≠ threat_id r.1.
Proof.
  cbn zeta. unfold createActiveThreat, nextInstance.
  rewrite !bind_run, !ret_run. cbn. repeat split.
  intros w' Hne Heq. apply Hne.
  apply String.app_inj, String.app_inj, pretty_Z_inj in Heq. lia.
Qed.

Section Draw.

Variables (s : GameState) (w : World) (c : ThreatCard) (rest : list ThreatCard).
Hypothesis Hdeck : deck s = c :: rest.

Lemma drawAndProcessCard_top :
  drawAndProcessCard s w
  = (let log' := log s ++ ["Threat card drawn: " +:+ name c +:+ "."] in
     if bool_decide (kind c = filler) then
       mret (s <| set_deck := rest |>
               <| set_discard := discard s ++ [c] |>
               <| set_log := log' ++ [name c +:+ " — nothing happens."] |>
               <| set_drawnCard := Some c |>)
     else
       revealEffects ←
         applyRevealEffect (s <| set_deck := rest |> <| set_log := log' |>) c;
       '(activeThreats', discard') ←
         (if negb (immediateOnReveal c) then
            newThreat ← createActiveThreat c;
            mret (activeThreats s ++ [newThreat], discard s)
          else if String.eqb (card_id c) "solar-winds-flagship" then
            mret (activeThreats s,
                  default (discard s) (re_discard revealEffects))
          else if String.prefix "distracted" (card_id c) then
            mret (default (activeThreats s) (re_activeThreats revealEffects),
                  discard s)
          else mret (activeThreats s, discard s));
       mret (spreadEffects revealEffects s
               <| set_deck := rest |>
               <| set_activeThreats := activeThreats' |>
               <| set_discard :=
                    if immediateOnReveal c then discard' else discard s |>
               <| set_log := default log' (re_log revealEffects) |>
               <| set_drawnCard := Some c |>)) w.
Proof. unfold drawAndProcessCard. by rewrite Hdeck. Qed.

End Draw.



(** X8.  A card that is flagged to act on reveal but is neither the Solar
    Winds Flagship nor a Distracted card is inert: it leaves the deck and is
    shown as drawn, but it joins neither the active threats nor the discard
    pile, and ship and crew are untouched; the card is gone from play. *)
Theorem unknown_reveal_card_vanishes
    (s : GameState) (w : World) (c : ThreatCard) (rest : list ThreatCard) :
  deck s = c :: rest →
  kind c ≠ filler → immediateOnReveal c = true →
  card_id c ≠ "solar-winds-flagship" →
  String.prefix "distracted" (card_id c) = false →
  let r := drawAndProcessCard s w in
  r.1 = s <| set_deck := rest |>
          <| set_log := log s ++ ["Threat card drawn: " +:+ name c +:+ "."] |>
          <| set_drawnCard := Some c |>
  ∧ r.2 = w.
Proof.
  intros Hdeck Hk Himm Hf Hdis r. subst r.
  rewrite (drawAndProcessCard_top s w c rest Hdeck). cbn zeta.
  rewrite bool_decide_eq_false_2 by done.
  unfold applyRevealEffect. rewrite Himm, Hdis. cbn [negb].
  destruct (String.eqb_spec (card_id c) "solar-winds-flagship"); [done|].
  rewrite !bind_run, !ret_run. cbn. split; [|done].
  destruct s; reflexivity.
Qed.

Lemma unknown_reveal_card_vanishes_witness :
  let rogue :=
    {| card_id := "ion-storm"; name := "Ion Storm"; kind := external;
       activation := nova; maxHealth := 2; description := "";
       resolution := None; isOuroboros := false; isBarrier := false;
       immediateOnReveal := true |} in
  let s := piratesScenario <| set_deck := [rogue] |> in
  let s' := (drawAndProcessCard s quietWorld).1 in
  deck s' = [] ∧ activeThreats s' = [piratesThreat] ∧ discard s' = [].
Proof.
  cbn zeta.
  destruct (unknown_reveal_card_vanishes
              (piratesScenario <| set_deck :=
                 [{| card_id := "ion-storm"; name := "Ion Storm";
                     kind := external; activation := nova; maxHealth := 2;
                     description := ""; resolution := None;
                     isOuroboros := false; isBarrier := false;
                     immediateOnReveal := true |}] |>)
              quietWorld
              {| card_id := "ion-storm"; name := "Ion Storm";
                 kind := external; activation := nova; maxHealth := 2;
                 description := ""; resolution := None;
                 isOuroboros := false; isBarrier := false;
                 immediateOnReveal := true |} [])
    as [H _]; [reflexivity|discriminate|reflexivity|discriminate|reflexivity|].
  rewrite H. repeat split.
Defined.

(** ** Targeting and tactical fire *)

(** X9.  Tactical fire can only be aimed at a live external or
    boss-barrier threat.  The Orbital Cannon is a target exactly when no
    other live external or barrier instance is in play, and the boss
    exactly when no live barrier is. *)
Theorem canTargetThreat_rules
    (threat : ActiveThreat) (allThreats : list ActiveThreat) :
  (canTargetThreat threat allThreats = true →
   (kind (card threat) = external ∨ kind (card threat) = boss_barrier)
   ∧ isDestroyed threat = false)
  ∧ ((kind (card threat) = external ∨ kind (card threat) = boss_barrier) →
     isDestroyed threat = false →
     if String.eqb (card_id (card threat)) "orbital-cannon" then
       canTargetThreat threat allThreats = true
       ↔ ∀ t, t ∈ allThreats → threat_id t ≠ threat_id threat →
              kind (card t) = external ∨ kind (card t) = boss_barrier →
              isDestroyed t = true
     else if isOuroboros (card threat) then
       canTargetThreat threat allThreats = true
       ↔ ∀ t, t ∈ allThreats → isBarrier (card t) = true →
              isDestroyed t = true
     else canTargetThreat threat allThreats = true).
Proof.
  unfold canTargetThreat. split.
  - intros H.
    destruct (bool_decide (kind (card threat) ≠ external)) eqn:A;
      destruct (bool_decide (kind (card threat) ≠ boss_barrier)) eqn:B;
      cbn [andb] in H; try discriminate H;
      (destruct (isDestroyed threat); [discriminate H|]);
      (split; [|done]).
    + apply bool_decide_eq_false in B.
      destruct (decide (kind (card threat) = boss_barrier)); tauto.
    + apply bool_decide_eq_false in A.
      destruct (decide (kind (card threat) = external)); tauto.
    + apply bool_decide_eq_false in A.
      destruct (decide (kind (card threat) = external)); tauto.
  - intros Hk Hd. rewrite Hd.
    assert (bool_decide (kind (card threat) ≠ external)
            && bool_decide (kind (card threat) ≠ boss_barrier) = false)
      as -> by (apply andb_false_iff;
                destruct Hk; [left|right]; by apply bool_decide_eq_false_2;
                intros Hne).
    destruct (String.eqb _ "orbital-cannon").
    + rewrite bool_decide_eq_true, length_zero_iff_nil. split.
      * intros Hnil t Ht Hid Hkt. destruct (isDestroyed t) eqn:E; [done|].
        by destruct (filter_nil_not_elem_of _ _ t Hnil).
      * intros Hall. apply filter_none. intros t Ht (Hid & Hkt & Hlive).
        specialize (Hall t Ht Hid Hkt). congruence.
    + destruct (isOuroboros (card threat)); [|done].
      rewrite bool_decide_eq_true, find_by_None, Forall_forall. split.
      * intros Hall t Ht Hb. destruct (isDestroyed t) eqn:E; [done|].
        by destruct (Hall t Ht).
      * intros Hall t Ht [Hb Hlive]. specialize (Hall t Ht Hb). congruence.
Qed.

(** X10.  Tactical damage rewrites only the entries carrying the target's
    id: ids, cards, stasis tokens and away missions of all entries and the
    whole of every other entry stay as they were.  A hit entry ends with
    health max(0, health - damage), or at least 1 under Time Warp unless it
    is the boss, and is flagged destroyed exactly when its health is 0. *)
Theorem applyTacticalDamage_effect
    (threats : list ActiveThreat) (targetId : string) (damage : Z)
    (timeWarpActive : bool) :
  let after := applyTacticalDamage threats targetId damage timeWarpActive in
  length after = length threats
  ∧ ∀ i t, threats !! i = Some t →
      ∃ t', after !! i = Some t'
        ∧ threat_id t' = threat_id t ∧ card t' = card t
        ∧ stasisTokens t' = stasisTokens t ∧ awayMission t' = awayMission t
        ∧ (threat_id t ≠ targetId → t' = t)
        ∧ (threat_id t = targetId →
           health t'
           = (if timeWarpActive && negb (isOuroboros (card t))
              then Z.max 1 (health t - damage)
              else Z.max 0 (health t - damage))
           ∧ (isDestroyed t' = true ↔ health t' = 0)).
Proof.
  cbn zeta. unfold applyTacticalDamage. split; [apply length_fmap|].
  intros i t Hi. rewrite list_lookup_fmap, Hi. cbn.
  eexists. split; [reflexivity|].
  destruct (decide (threat_id t = targetId)) as [E|E].
  - rewrite (bool_decide_eq_false_2 (threat_id t ≠ targetId)) by tauto. cbn.
    repeat split; try done.
    + destruct (timeWarpActive && negb (isOuroboros (card t))); lia.
    + apply bool_decide_eq_true.
    + apply bool_decide_eq_true_2.
  - rewrite (bool_decide_eq_true_2 _ E). repeat split; try done.
Qed.

(** X11.  While Time Warp is in play tactical fire cannot destroy anything
    but the boss: every entry of a live threat that is not the boss leaves
    the volley with health at least 1 and not destroyed, however large the
    damage. *)
Theorem time_warp_keeps_targets_alive
    (threats : list ActiveThreat) (targetId : string) (damage : Z) :
  ∀ t, t ∈ applyTacticalDamage threats targetId damage true →
       threat_id t = targetId → isOuroboros (card t) = false →
       1 ≤ health t ∧ isDestroyed t = false.
Proof.
  intros t Ht Hid Hboss. unfold applyTacticalDamage in Ht.
  apply list_elem_of_fmap in Ht as (t0 & -> & _). revert Hid Hboss.
  case_bool_decide as E; [intros Hid; by destruct E|]. cbn.
  intros _ ->. cbn. split; [lia|]. apply bool_decide_eq_false_2. lia.
Qed.

Lemma time_warp_keeps_targets_alive_witness :
  1 ≤ health (with_health 1 false piratesThreat)
  ∧ isDestroyed (with_health 1 false piratesThreat) = false.
Proof.
  apply (time_warp_keeps_targets_alive [piratesThreat] "pirates-1" 10);
    [left|reflexivity|reflexivity].
Defined.

(** ** More on the activation pass *)

(** The pass seen from one threat [t] of a list with distinct ids: the
    threats handled before and after [t] carry other ids, and when [t]'s
    turn comes its entry is still the one of the input. *)
Lemma pass_around (st : GameState) (rolled : ThreatSymbol) (t : ActiveThreat) :
  t ∈ activeThreats st → NoDup (threat_id <$> activeThreats st) →
  ∃ l1 l2 r0,
    (∀ x, x ∈ l1 ++ l2 → x ∈ activeThreats st ∧ threat_id x ≠ threat_id t)
    ∧ r0 = foldl (activateOne rolled)
             {| ar_hull := hull st; ar_shields := shields st;
                ar_threats := activeThreats st; ar_crew := crew st;
                ar_log := []; ar_extraDraw := false |} l1
    ∧ filter (λ x, threat_id x = threat_id t) (ar_threats r0) = [t]
    ∧ activateThreats st rolled
      = foldl (activateOne rolled) (activateOne rolled r0 t) l2
    ∧ ∀ r, filter (λ x, threat_id x = threat_id t)
                  (ar_threats (foldl (activateOne rolled) r l2))
           = filter (λ x, threat_id x = threat_id t) (ar_threats r).
Proof.
  intros Hin Hnd.
  pose proof (sort_by_Permutation internalFirst (activeThreats st)) as Hperm.
  assert (t ∈ sort_by internalFirst (activeThreats st)) as Hin'
    by (by rewrite Hperm).
  apply list_elem_of_split in Hin' as (l1 & l2 & Hsplit).
  assert (Forall (λ x, threat_id x ≠ threat_id t) l1
          ∧ Forall (λ x, threat_id x ≠ threat_id t) l2) as [Hl1 Hl2].
  { pose proof Hnd as Hnd'.
    rewrite <- Hperm, Hsplit, fmap_app, fmap_cons in Hnd'.
    apply NoDup_app in Hnd' as (_ & Hdisj & [Hfresh _]%NoDup_cons).
    split; apply Forall_forall; intros x Hx Heq.
    - apply (Hdisj (threat_id x)); [by apply list_elem_of_fmap_2|].
      rewrite Heq. left.
    - apply Hfresh. rewrite <- Heq. by apply list_elem_of_fmap_2. }
  exists l1, l2, (foldl (activateOne rolled)
             {| ar_hull := hull st; ar_shields := shields st;
                ar_threats := activeThreats st; ar_crew := crew st;
                ar_log := []; ar_extraDraw := false |} l1).
  repeat split.
  - rewrite <- Hperm, Hsplit. apply elem_of_app in H as [?|?];
      apply elem_of_app; [by left|right; by right].
  - apply elem_of_app in H as [H|H];
      [exact (proj1 (Forall_forall _ _) Hl1 x H)
      |exact (proj1 (Forall_forall _ _) Hl2 x H)].
  - rewrite pass_entry_other by done. cbn.
    by apply (filter_key_unique threat_id).
  - unfold activateThreats. by rewrite Hsplit, foldl_app.
  - intros r. by apply pass_entry_other.
Qed.

(** X12.  When no active threat carries the rolled symbol the pass does
    nothing: hull, shields, threats and crew come back as they went in, the
    log is empty and no extra draw is requested. *)
Theorem activateThreats_no_match (st : GameState) (rolled : ThreatSymbol) :
  (∀ t, t ∈ activeThreats st → activation (card t) ≠ rolled) →
  activateThreats st rolled
  = {| ar_hull := hull st; ar_shields := shields st;
       ar_threats := activeThreats st; ar_crew := crew st;
       ar_log := []; ar_extraDraw := false |}.
Proof.
  intros Hnone. unfold activateThreats. apply pass_skip.
  apply Forall_forall. intros t Ht. apply Hnone.
  by rewrite <- (sort_by_Permutation internalFirst).
Qed.

Lemma activateThreats_no_match_witness :
  ar_hull (activateThreats piratesScenario alien) = 8
  ∧ ar_threats (activateThreats piratesScenario alien) = [piratesThreat].
Proof.
  rewrite (activateThreats_no_match piratesScenario alien).
  - split; reflexivity.
  - intros t [->|[]%elem_of_nil]%elem_of_cons. discriminate.
Defined.

(** X13.  A stasis token suppresses one activation inside the pass.  In a
    list with distinct ids, a threat that answers the roll (not a filler,
    and live or a barrier) and holds at least one token ends with exactly
    one token less and all its other fields as they were.  When no other
    threat answers the roll, hull, shields and crew are unchanged, no extra
    draw is requested, the other threats are untouched, and the log is
    exactly the one suppression line, which begins with the card's name. *)
Theorem stasis_token_cancels_activation
    (st : GameState) (t : ActiveThreat) (rolled : ThreatSymbol) :
  t ∈ activeThreats st →
  NoDup (threat_id <$> activeThreats st) →
  kind (card t) ≠ filler → activation (card t) = rolled →
  isDestroyed t = false ∨ isBarrier (card t) = true →
  0 < stasisTokens t →
  let r := activateThreats st rolled in
  find_by (λ x, threat_id x = threat_id t) (ar_threats r)
    = Some {| threat_id := threat_id t; card := card t; health := health t;
              stasisTokens := stasisTokens t - 1;
              awayMission := awayMission t; isDestroyed := isDestroyed t |}
  ∧ ((∀ x, x ∈ activeThreats st → x ≠ t → activation (card x) ≠ rolled) →
     ar_hull r = hull st ∧ ar_shields r = shields st ∧ ar_crew r = crew st
     ∧ ar_extraDraw r = false
     ∧ ar_log r
       = [name (card t) +:+ " activation suppressed by stasis token."]
     ∧ ar_threats r
       = (λ x, if bool_decide (threat_id x = threat_id t)
               then {| threat_id := threat_id x; card := card x;
                       health := health x;
                       stasisTokens := stasisTokens x - 1;
                       awayMission := awayMission x;
                       isDestroyed := isDestroyed x |}
               else x) <$> activeThreats st).
Proof.
  intros Hin Hnd Hk Ha Hlive Hs r. subst r.
  destruct (pass_around st rolled t Hin Hnd)
    as (l1 & l2 & r0 & Hothers & Hr0 & Hentry & -> & Hafter).
  assert (activateOne rolled r0 t
          = ar_pushLog
              [name (card t) +:+ " activation suppressed by stasis token."]
              (ar_setThreats
                 ((λ x, if bool_decide (threat_id x = threat_id t)
                        then with_stasisTokens (stasisTokens x - 1) x else x)
                    <$> ar_threats r0) r0)) as Hstep.
  { unfold activateOne.
    rewrite find_by_head_filter, Hentry. cbn [head].
    rewrite !bool_decide_eq_false_2 by (done || tauto).
    rewrite (bool_decide_eq_true_2 _ Hs).
    destruct Hlive as [->| ->]; [done|]. by rewrite andb_false_r. }
  rewrite Hstep. split.
  - rewrite find_by_head_filter, Hafter. cbn [ar_threats ar_pushLog ar_setLog
      ar_setThreats].
    rewrite filter_fmap_stable, Hentry.
    + cbn. by rewrite bool_decide_eq_true_2.
    + intros x. by case_bool_decide.
  - intros Hquiet.
    assert (∀ l, (∀ x, x ∈ l → x ∈ l1 ++ l2) →
                 Forall (λ x, activation (card x) ≠ rolled) l) as Hskip.
    { intros l Hsub. apply Forall_forall. intros x Hx.
      destruct (Hothers x (Hsub x Hx)) as [Hx' Hid].
      apply Hquiet; [done|]. by intros ->. }
    rewrite (pass_skip rolled l2)
      by (apply Hskip; intros x Hx; apply elem_of_app; by right).
    rewrite Hr0.
    rewrite (pass_skip rolled l1)
      by (apply Hskip; intros x Hx; apply elem_of_app; by left).
    done.
Qed.

Lemma stasis_token_cancels_activation_witness :
  let frozen :=
    {| threat_id := "time-warp-1"; card := TIME_WARP; health := 0;
       stasisTokens := 1; awayMission := []; isDestroyed := false |} in
  let r := activateThreats
             (piratesScenario <| set_activeThreats := [frozen] |>) nova in
  stasisTokens <$> find_by (λ x, threat_id x = "time-warp-1") (ar_threats r)
    = Some 0
  ∧ ar_hull r = 8
  ∧ ar_log r = ["Time Warp activation suppressed by stasis token."]
  ∧ existsb (includes "Time Warp") (ar_log r) = true.
Proof.
  destruct (stasis_token_cancels_activation
              (piratesScenario
                 <| set_activeThreats :=
                      [{| threat_id := "time-warp-1"; card := TIME_WARP;
                          health := 0; stasisTokens := 1; awayMission := [];
                          isDestroyed := false |}] |>)
              {| threat_id := "time-warp-1"; card := TIME_WARP; health := 0;
                 stasisTokens := 1; awayMission := []; isDestroyed := false |}
              nova)
    as [Hentry Hship].
  - left.
  - apply (bool_decide_unpack _). vm_compute. exact I.
  - discriminate.
  - reflexivity.
  - left. reflexivity.
  - reflexivity.
  - destruct Hship as (Hh & _ & _ & _ & Hlog & _).
    { intros x [->|[]%elem_of_nil]%elem_of_cons Hne. by destruct Hne. }
    cbn zeta. rewrite Hlog.
    split_and!; [exact (f_equal (fmap stasisTokens) Hentry)|exact Hh|..];
      reflexivity.
Defined.

Lemma ar_damage_bounds hullDmg shieldDmg r :
  0 ≤ hullDmg → 0 ≤ shieldDmg → 0 ≤ ar_hull r → 0 ≤ ar_shields r →
  0 ≤ ar_hull (ar_damage hullDmg shieldDmg r) ≤ ar_hull r
  ∧ 0 ≤ ar_shields (ar_damage hullDmg shieldDmg r) ≤ ar_shields r.
Proof.
  intros Hh Hs H1 H2. unfold ar_damage. cbn [ar_hull ar_shields].
  destruct (applyDamage_values (ar_hull r) (ar_shields r) hullDmg shieldDmg)
    as [-> ->]; [done..|]. lia.
Qed.

Lemma activateOne_bounds rolled r t :
  0 ≤ ar_hull r → 0 ≤ ar_shields r →
  0 ≤ ar_hull (activateOne rolled r t) ≤ ar_hull r
  ∧ 0 ≤ ar_shields (activateOne rolled r t) ≤ ar_shields r.
Proof.
  intros H1 H2. unfold activateOne. activation_cases; try lia.
  all: match goal with
       | |- context [ar_damage ?h ?s ?x] =>
           destruct (ar_damage_bounds h s x) as [? ?];
             [lia|lia|exact H1|exact H2|];
           cbn [ar_hull ar_shields ar_setThreats ar_pushLog ar_setLog] in *;
           lia
       end.
Qed.

Lemma pass_bounds rolled l r :
  0 ≤ ar_hull r → 0 ≤ ar_shields r →
  0 ≤ ar_hull (foldl (activateOne rolled) r l) ≤ ar_hull r
  ∧ 0 ≤ ar_shields (foldl (activateOne rolled) r l) ≤ ar_shields r.
Proof.
  revert r. induction l as [|t l IH]; intros r Hh Hs; [cbn; lia|].
  cbn [foldl].
  destruct (activateOne_bounds rolled r t Hh Hs) as [[? ?] [? ?]].
  destruct (IH (activateOne rolled r t)) as [[? ?] [? ?]]; [done..|]. lia.
Qed.

(** X14.  The activation pass never repairs the ship: from a non-negative
    hull and shields it returns a hull between 0 and the hull it was given
    and shields between 0 and the shields it was given. *)
Theorem activation_never_repairs (st : GameState) (rolled : ThreatSymbol) :
  0 ≤ hull st → 0 ≤ shields st →
  let r := activateThreats st rolled in
  0 ≤ ar_hull r ≤ hull st ∧ 0 ≤ ar_shields r ≤ shields st.
Proof.
  intros Hh Hs r. subst r. unfold activateThreats.
  apply (pass_bounds rolled (sort_by internalFirst (activeThreats st))
           {| ar_hull := hull st; ar_shields := shields st;
              ar_threats := activeThreats st; ar_crew := crew st;
              ar_log := []; ar_extraDraw := false |}); assumption.
Qed.

Lemma activation_never_repairs_witness :
  let r := activateThreats piratesScenario skull in
  0 ≤ ar_hull r ≤ 8 ∧ 0 ≤ ar_shields r ≤ 0.
Proof.
  apply (activation_never_repairs piratesScenario skull); vm_compute;
    discriminate.
Defined.

(** X15.  The pass handles the internal threats first: it is the loop over
    all internal threats in list order, followed by the loop over all other
    threats in list order. *)
Theorem activation_order_internal_first
    (st : GameState) (rolled : ThreatSymbol) :
  activateThreats st rolled
  = foldl (activateOne rolled)
      (foldl (activateOne rolled)
         {| ar_hull := hull st; ar_shields := shields st;
            ar_threats := activeThreats st; ar_crew := crew st;
            ar_log := []; ar_extraDraw := false |}
         (filter (λ t, kind (card t) = internal) (activeThreats st)))
      (filter (λ t, kind (card t) ≠ internal) (activeThreats st)).
Proof.
  unfold activateThreats. by rewrite sort_by_internalFirst, foldl_app.
Qed.

Lemma activateOne_ids_sublist rolled r t :
  (threat_id <$> ar_threats (activateOne rolled r t))
    `sublist_of` (threat_id <$> ar_threats r)
  ∧ (card <$> ar_threats (activateOne rolled r t))
      `sublist_of` (card <$> ar_threats r).
Proof.
  assert (∀ (g : ActiveThreat → ActiveThreat) (l : list ActiveThreat),
            (∀ x, threat_id (g x) = threat_id x ∧ card (g x) = card x) →
            threat_id <$> (g <$> l) = threat_id <$> l
            ∧ card <$> (g <$> l) = card <$> l) as Hmap.
  { intros g l Hg. rewrite <- !list_fmap_compose.
    split; apply list_fmap_ext; intros _ x _; apply Hg. }
  unfold activateOne. activation_cases; try done.
  all: try (split; apply fmap_sublist, sublist_filter).
  all: cbn [ar_threats ar_damage ar_setThreats ar_pushLog ar_setLog].
  all: match goal with
       | |- context [threat_id <$> (?g <$> ?l)] =>
           destruct (Hmap g l) as [-> ->]; [|done]
       end.
  all: intros x; cbn beta; destruct (bool_decide (threat_id x = _)); split; reflexivity.
Qed.

Lemma pass_ids_sublist rolled l r :
  (threat_id <$> ar_threats (foldl (activateOne rolled) r l))
    `sublist_of` (threat_id <$> ar_threats r)
  ∧ (card <$> ar_threats (foldl (activateOne rolled) r l))
      `sublist_of` (card <$> ar_threats r).
Proof.
  revert r. induction l as [|t l IH]; intros r; [done|]. cbn [foldl].
  destruct (IH (activateOne rolled r t)) as [H1 H2].
  destruct (activateOne_ids_sublist rolled r t) as [H3 H4].
  split; etrans; eauto.
Qed.

(** X16.  The pass never brings a threat into play and never reorders the
    list: the instance ids and the cards of the threats it returns are a
    subsequence of those it was given. *)
Theorem activation_adds_no_threat (st : GameState) (rolled : ThreatSymbol) :
  let r := activateThreats st rolled in
  (threat_id <$> ar_threats r) `sublist_of` (threat_id <$> activeThreats st)
  ∧ (card <$> ar_threats r) `sublist_of` (card <$> activeThreats st).
Proof.
  cbn zeta.
  assert ((threat_id <$> ar_threats (activateThreats st rolled))
            `sublist_of` (threat_id <$> activeThreats st)
          ∧ (card <$> ar_threats (activateThreats st rolled))
              `sublist_of` (card <$> activeThreats st)) as [Hid Hcard].
  { unfold activateThreats.
    apply (pass_ids_sublist rolled
             (sort_by internalFirst (activeThreats st))
             {| ar_hull := hull st; ar_shields := shields st;
                ar_threats := activeThreats st; ar_crew := crew st;
                ar_log := []; ar_extraDraw := false |}). }
  by split.
Qed.

(** ** Crew movements of the stations and of the activation effects *)

Ltac loc_decide :=
  repeat match goal with
         | |- context [decide (?a = ?b)] =>
             destruct (decide (a = b)); try congruence
         end;
  cbn [length]; try lia.

Lemma sendToInfirmary_loop_counts crew count sent :
  let pool0 := Z.of_nat (length (filter (λ d, location d = pool) crew)) in
  let k := Z.min (Z.max 0 (count - sent)) pool0 in
  let res := sendToInfirmary_loop crew count sent in
  res.2 = sent + k
  ∧ Z.of_nat (length (filter (λ d, location d = pool) res.1)) = pool0 - k
  ∧ Z.of_nat (countAtStation res.1 st_infirmary)
    = Z.of_nat (countAtStation crew st_infirmary) + k.
Proof.
  cbn zeta. unfold countAtStation, getDiceAtStation. revert sent.
  induction crew as [|d crew IH]; intros sent; [cbn; lia|].
  cbn [sendToInfirmary_loop].
  destruct (decide (sent < count)) as [Hlt|Hge].
  - rewrite (bool_decide_eq_true_2 _ Hlt).
    destruct (decide (location d = pool)) as [Hp|Hp].
    + rewrite (bool_decide_eq_true_2 _ Hp).
      specialize (IH (sent + 1)).
      destruct (sendToInfirmary_loop crew count (sent + 1)) as [rest' sent'].
      cbn [fst snd] in *. destruct IH as (-> & IH2 & IH3).
      rewrite !filter_cons. cbn [location with_location]. loc_decide.
    + rewrite (bool_decide_eq_false_2 _ Hp).
      specialize (IH sent).
      destruct (sendToInfirmary_loop crew count sent) as [rest' sent'].
      cbn [fst snd] in *. destruct IH as (-> & IH2 & IH3).
      rewrite !filter_cons. loc_decide.
  - rewrite (bool_decide_eq_false_2 _ Hge). cbn [fst snd]. lia.
Qed.

(** X17.  An activation effect that sends [count] crew to the infirmary
    moves exactly min(count, dice in the pool) dice (none for a negative
    count): the pool shrinks and the infirmary grows by that number, no die
    is added, dropped or renumbered, and the log gets its one line exactly
    when at least one die moved. *)
Theorem sendToInfirmary_moves_min
    (crew : list CrewDie) (count : Z) (log : list string) :
  let inPool (c : list CrewDie) :=
    Z.of_nat (length (filter (λ d, location d = pool) c)) in
  let moved := Z.min (Z.max 0 count) (inPool crew) in
  let res := sendToInfirmary crew count log in
  inPool res.1 = inPool crew - moved
  ∧ Z.of_nat (countAtStation res.1 st_infirmary)
    = Z.of_nat (countAtStation crew st_infirmary) + moved
  ∧ die_id <$> res.1 = die_id <$> crew
  ∧ res.2 = (if bool_decide (0 < moved)
             then log ++ [pretty moved +:+ " crew sent to Infirmary."]
             else log).
Proof.
  cbn zeta.
  pose proof (sendToInfirmary_loop_counts crew count 0) as H.
  cbn zeta in H. rewrite Z.sub_0_r, Z.add_0_l in H.
  split_and!; [| |apply sendToInfirmary_ids|]; unfold sendToInfirmary;
    destruct (sendToInfirmary_loop crew count 0) as [result sent];
    cbn [fst snd] in *; destruct H as (-> & H2 & H3); done.
Qed.

(** X18.  Medical's recover-all empties the infirmary into the pool: no
    die is left in the infirmary, the pool grows by the number of dice that
    were there, the other stations keep their dice, and using it twice is
    the same as using it once. *)
Theorem resolveMedical_empties_infirmary (crew : list CrewDie) :
  countAtStation (resolveMedical crew) st_infirmary = 0%nat
  ∧ commanderRerollCount (resolveMedical crew)
    = (commanderRerollCount crew + countAtStation crew st_infirmary)%nat
  ∧ (∀ s, s ≠ st_infirmary →
          getDiceAtStation (resolveMedical crew) s = getDiceAtStation crew s)
  ∧ resolveMedical (resolveMedical crew) = resolveMedical crew.
Proof.
  unfold countAtStation, commanderRerollCount, getDiceAtStation, resolveMedical.
  split_and!.
  - induction crew as [|d crew IH]; [done|].
    rewrite fmap_cons, filter_cons.
    destruct (decide (location d = at_station st_infirmary)) as [E|E].
    + rewrite (bool_decide_eq_true_2 _ E). cbn [location with_location].
      by rewrite decide_False by done.
    + rewrite (bool_decide_eq_false_2 _ E). by rewrite decide_False by done.
  - induction crew as [|d crew IH]; [done|].
    rewrite fmap_cons, !filter_cons.
    destruct (decide (location d = at_station st_infirmary)) as [E|E].
    + rewrite (bool_decide_eq_true_2 _ E). cbn [location with_location].
      rewrite decide_True by done.
      rewrite decide_False by (rewrite E; done).
      cbn [length]. lia.
    + rewrite (bool_decide_eq_false_2 _ E).
      destruct (decide (location d = pool)); cbn [length]; lia.
  - intros s Hs. induction crew as [|d crew IH]; [done|].
    rewrite fmap_cons, !filter_cons, IH.
    destruct (decide (location d = at_station st_infirmary)) as [E|E].
    + rewrite (bool_decide_eq_true_2 _ E). cbn [location with_location].
      rewrite decide_False by done.
      by rewrite decide_False by (rewrite E; congruence).
    + by rewrite (bool_decide_eq_false_2 _ E).
  - rewrite <- list_fmap_compose. apply list_fmap_ext. intros _ d _. cbn.
    destruct (decide (location d = at_station st_infirmary)) as [E|E].
    + by rewrite (bool_decide_eq_true_2 _ E).
    + by rewrite (bool_decide_eq_false_2 _ E), (bool_decide_eq_false_2 _ E).
Qed.

Lemma releaseFromScanners_from_true crew :
  releaseFromScanners_from true crew = crew.
Proof. induction crew as [|d crew IH]; [done|]. cbn. by rewrite IH. Qed.

(** X19.  Medical's scanner release frees the first scanner die in list
    order and only that one: the crew before it and after it is untouched;
    with no die in the scanners the crew comes back unchanged. *)
Theorem releaseFromScanners_frees_first (crew : list CrewDie) :
  match list_find (λ d, location d = at_station st_scanners) crew with
  | Some (i, d) =>
      releaseFromScanners crew = <[i := with_location pool d]> crew
      ∧ countAtStation (releaseFromScanners crew) st_scanners
        = pred (countAtStation crew st_scanners)
      ∧ commanderRerollCount (releaseFromScanners crew)
        = S (commanderRerollCount crew)
  | None => releaseFromScanners crew = crew
  end.
Proof.
  unfold releaseFromScanners, countAtStation, commanderRerollCount,
    getDiceAtStation.
  induction crew as [|d crew IH]; [done|].
  cbn [list_find releaseFromScanners_from negb andb].
  destruct (decide (location d = at_station st_scanners)) as [E|E].
  - rewrite (bool_decide_eq_true_2 _ E), releaseFromScanners_from_true.
    rewrite !filter_cons. cbn [location with_location].
    rewrite decide_False by done. rewrite decide_True by done.
    rewrite decide_True by done.
    rewrite decide_False by (rewrite E; done). done.
  - rewrite (bool_decide_eq_false_2 _ E).
    destruct (list_find _ crew) as [[i d']|]; cbn [fmap option_fmap option_map prod_map fst snd].
    + destruct IH as (-> & IH2 & IH3). split_and!; [done| |].
      * rewrite !filter_cons, !(decide_False (P := location d = at_station st_scanners)) by done. done.
      * rewrite !filter_cons. destruct (decide (location d = pool)); cbn [length]; lia.
    + by rewrite IH.
Qed.

(** ** Scanners, gathering and assignment rules *)

Lemma release_ids_counts (crew : list CrewDie) (k : nat) :
  NoDup (die_id <$> crew) →
  let sd := filter (λ d, location d = at_station st_scanners) crew in
  let released :=
    (λ d, if bool_decide (die_id d ∈ die_id <$> take k sd)
          then with_location pool d else d) <$> crew in
  filter (λ d, location d = at_station st_scanners) released = drop k sd
  ∧ length (filter (λ d, location d = pool) released)
    = (length (filter (λ d, location d = pool) crew) + k `min` length sd)%nat.
Proof.
  cbn zeta. revert k. induction crew as [|d crew IH]; intros k Hnd.
  { cbn. rewrite drop_nil. split; [done|lia]. }
  rewrite fmap_cons in Hnd. apply NoDup_cons in Hnd as [Hfresh Hnd].
  assert (∀ (R : list CrewDie), R ⊆ crew → die_id d ∉ die_id <$> R) as HR.
  { intros R HR Hin. apply Hfresh.
    apply list_elem_of_fmap in Hin as (x & -> & Hx).
    apply list_elem_of_fmap_2. by apply HR. }
  assert (∀ j, take j (filter (λ d, location d = at_station st_scanners) crew)
               ⊆ crew) as Hsub.
  { intros j x Hx. apply elem_of_take in Hx as (i & Hx & _).
    apply list_elem_of_lookup_2 in Hx.
    by apply list_elem_of_filter in Hx as [_ Hx]. }
  assert (∀ l : list CrewDie,
            (λ d, if bool_decide (die_id d ∈ die_id <$> @nil CrewDie)
                  then with_location pool d else d) <$> l = l) as Hnil.
  { intros l. rewrite <- (list_fmap_id l) at 2. apply list_fmap_ext.
    intros _ x _. rewrite bool_decide_eq_false_2; [done|].
    rewrite fmap_nil. apply not_elem_of_nil. }
  rewrite (filter_cons _ d crew).
  destruct (decide (location d = at_station st_scanners)) as [E|E].
  - destruct k as [|k].
    + cbn [take]. rewrite Hnil, drop_0. split; [|cbn [Nat.min]; lia].
      by rewrite filter_cons, decide_True.
    + cbn [take drop]. rewrite !fmap_cons.
      rewrite (bool_decide_eq_true_2 (die_id d ∈ _)) by left.
      rewrite (list_fmap_ext _
                 (λ x, if bool_decide
                            (die_id x ∈ die_id <$>
                               take k (filter (λ d, location d
                                  = at_station st_scanners) crew))
                       then with_location pool x else x) crew).
      * destruct (IH k Hnd) as [IH1 IH2].
        rewrite !filter_cons, IH1. cbn [location with_location].
        repeat match goal with
               | |- context [decide (?a = ?b)] =>
                   destruct (decide (a = b)); try congruence
               end.
        cbn [length]. rewrite IH2. split; [done|cbn [length]; lia].
      * intros i x Hx. apply list_elem_of_lookup_2 in Hx.
        assert (die_id x ≠ die_id d) as Hne.
        { intros Heq. apply Hfresh. rewrite <- Heq.
          by apply list_elem_of_fmap_2. }
        destruct (decide (die_id x ∈ die_id <$>
                    take k (filter (λ d, location d = at_station st_scanners)
                                   crew))) as [Hin|Hin].
        -- rewrite !bool_decide_eq_true_2; [done|done|by right].
        -- rewrite !bool_decide_eq_false_2; [done|done|].
           intros [?|?]%elem_of_cons; done.
  - rewrite fmap_cons.
    rewrite (bool_decide_eq_false_2 (die_id d ∈ _)) by (apply HR, Hsub).
    destruct (IH k Hnd) as [IH1 IH2].
    rewrite !filter_cons, IH1. rewrite decide_False by done.
    destruct (decide (location d = pool)); cbn [length]; rewrite IH2;
      (split; [done|lia]).
Qed.

(** X20.  With distinct die ids the scanners are emptied in batches of
    three: n dice in the scanners ask for n / 3 extra draws, n mod 3 dice
    stay locked (the last ones in list order), and the pool grows by
    3 * (n / 3). *)
Theorem processScanners_batches (crew : list CrewDie) :
  NoDup (die_id <$> crew) →
  let n := countAtStation crew st_scanners in
  let res := processScanners crew in
  sc_extraDraws res = (n / 3)%nat
  ∧ getDiceAtStation (sc_crew res) st_scanners
    = drop (n / 3 * 3) (getDiceAtStation crew st_scanners)
  ∧ countAtStation (sc_crew res) st_scanners = (n `mod` 3)%nat
  ∧ commanderRerollCount (sc_crew res)
    = (commanderRerollCount crew + 3 * (n / 3))%nat.
Proof.
  intros Hnd. cbn zeta.
  unfold processScanners, countAtStation, commanderRerollCount,
    getDiceAtStation.
  set (sd := filter (λ d, location d = at_station st_scanners) crew).
  pose proof (Nat.div_mod_eq (length sd) 3) as Hdm.
  destruct (decide ((length sd / 3)%nat = 0%nat)) as [E|E].
  - rewrite (bool_decide_eq_true_2 _ E). cbn [sc_crew sc_extraDraws].
    fold sd. rewrite E, drop_0. split_and!; try done; lia.
  - rewrite (bool_decide_eq_false_2 _ E). cbn [sc_crew sc_extraDraws].
    destruct (release_ids_counts crew (length sd / 3 * 3) Hnd) as [H1 H2].
    fold sd in H1, H2. rewrite H1, H2, length_drop. split_and!; try done; lia.
Qed.

Lemma processScanners_batches_witness :
  let crew :=
    (λ d, with_location (at_station st_scanners) d) <$> freshCrew in
  sc_extraDraws (processScanners crew) = 2%nat
  ∧ countAtStation (sc_crew (processScanners crew)) st_scanners = 0%nat.
Proof.
  cbn zeta.
  destruct (processScanners_batches
              ((λ d, with_location (at_station st_scanners) d) <$> freshCrew))
    as (H1 & _ & H3 & _).
  - apply (bool_decide_unpack _). vm_compute. exact I.
  - split; [exact H1|exact H3].
Defined.

(** X21.  Gathering leaves every die in the pool, in the infirmary, in the
    scanners or on an away mission of a threat that is still active; the
    infirmary and the scanners keep exactly their dice, and gathering a
    gathered crew changes nothing. *)
Theorem gatherCrew_locations
    (crew : list CrewDie) (threats : list ActiveThreat) :
  Forall (λ d, location d = pool
               ∨ location d = at_station st_infirmary
               ∨ location d = at_station st_scanners
               ∨ ∃ i, location d = on_threat i ∧ i ∈ threat_id <$> threats)
         (gatherCrew crew threats)
  ∧ getDiceAtStation (gatherCrew crew threats) st_infirmary
    = getDiceAtStation crew st_infirmary
  ∧ getDiceAtStation (gatherCrew crew threats) st_scanners
    = getDiceAtStation crew st_scanners
  ∧ gatherCrew (gatherCrew crew threats) threats = gatherCrew crew threats.
Proof.
  unfold gatherCrew, getDiceAtStation. split_and!.
  - apply Forall_fmap, Forall_forall. intros d _. cbn.
    destruct (location d) as [|s|i] eqn:E; [|destruct s|];
      repeat case_bool_decide; simplify_eq; cbn; rewrite ?E; eauto 7.
  - apply filter_fmap_fixed; intros d.
    + destruct (location d) as [|s|i] eqn:E; [| destruct s |];
        repeat case_bool_decide; cbn; rewrite ?E; try done.
    + intros ->. by rewrite bool_decide_eq_true_2.
  - apply filter_fmap_fixed; intros d.
    + destruct (location d) as [|s|i] eqn:E; [| destruct s |];
        repeat case_bool_decide; cbn; rewrite ?E; try done.
    + intros ->. rewrite (bool_decide_eq_true_2 (_ = at_station st_scanners))
        by done. by rewrite orb_true_r.
  - rewrite <- list_fmap_compose. apply list_fmap_ext. intros _ d _. cbn.
    destruct (location d) as [|s|i] eqn:E; [| destruct s |];
      repeat case_bool_decide; cbn; rewrite ?E; try done;
      cbn; repeat case_bool_decide; done.
Qed.

(** X22.  The crew-loss test agrees with what gathering would return: as
    long as every away mission belongs to an active threat, [checkCrewLoss]
    holds exactly when gathering would leave no die in the pool. *)
Theorem crew_loss_iff_nothing_to_gather
    (crew : list CrewDie) (threats : list ActiveThreat) :
  (∀ d i, d ∈ crew → location d = on_threat i → i ∈ threat_id <$> threats) →
  checkCrewLoss crew = true
  ↔ commanderRerollCount (gatherCrew crew threats) = 0%nat.
Proof.
  unfold checkCrewLoss, commanderRerollCount, gatherCrew.
  induction crew as [|d crew IH]; intros Hact; [done|].
  cbn [forallb]. rewrite fmap_cons, filter_cons, andb_true_iff.
  rewrite IH by (intros x i Hx; apply Hact; by right).
  assert (∀ i, location d = on_threat i → i ∈ threat_id <$> threats) as Hd
    by (intros i; apply Hact; left).
  destruct (location d) as [|s|i] eqn:E.
  - rewrite !bool_decide_eq_false_2 by done. cbn. rewrite decide_True by done.
    cbn. split; [intros [? _]; done|done].
  - destruct s; cbn;
      rewrite ?bool_decide_eq_false_2 by done;
      rewrite ?bool_decide_eq_true_2 by done; cbn; rewrite ?E;
      loc_decide; try (split; [intros [? _]; done|done]); tauto.
  - rewrite !bool_decide_eq_false_2 by done. cbn.
    rewrite (bool_decide_eq_true_2 _ (Hd i eq_refl)). rewrite E.
    rewrite decide_False by done. tauto.
Qed.

Lemma crew_loss_iff_nothing_to_gather_witness :
  checkCrewLoss (crew medicalScenario) = true
  ↔ commanderRerollCount (gatherCrew (crew medicalScenario) []) = 0%nat.
Proof.
  apply (crew_loss_iff_nothing_to_gather (crew medicalScenario) []).
  intros d i Hd Hl. exfalso. revert Hl.
  vm_compute in Hd.
  repeat (apply elem_of_cons in Hd as [->|Hd]; [discriminate|]).
  by apply elem_of_nil in Hd.
Defined.

(** X23.  The station rule is the face table restricted to the five
    assignable stations: [canAssignToStation] accepts a die for a station
    exactly when the die is in the pool, [stationForFace] maps its face to
    that station, the station is not the scanners, and the commander
    station is not disabled by Comms Offline. *)
Theorem canAssignToStation_iff
    (die : CrewDie) (stationId : StationId) (commsOfflineActive : bool) :
  canAssignToStation die stationId commsOfflineActive = true
  ↔ location die = pool
    ∧ stationForFace (face die) = Some stationId
    ∧ stationId ≠ st_scanners
    ∧ ¬ (commsOfflineActive = true ∧ stationId = st_commander).
Proof.
  unfold canAssignToStation.
  destruct (decide (location die = pool)) as [Hp|Hp].
  - rewrite (bool_decide_eq_false_2 (location die ≠ pool)) by tauto.
    destruct stationId, commsOfflineActive, (face die);
      vm_compute; intuition congruence.
  - rewrite (bool_decide_eq_true_2 _ Hp). intuition congruence.
Qed.

(** ** Resolving internal threats after an assignment *)

Lemma isThreatResolved_other_freed (t : ActiveThreat) (crew : list CrewDie)
    (i : string) :
  threat_id t ≠ i →
  isThreatResolved t
    ((λ d, if bool_decide (location d = on_threat i)
           then with_location pool d else d) <$> crew)
  = isThreatResolved t crew.
Proof.
  intros Hne. unfold isThreatResolved.
  destruct (resolution (card t)) as [req|]; [|done].
  rewrite filter_fmap_fixed; [done| |].
  - intros d. case_bool_decide as E; cbn; [|done]. rewrite E.
    split; intros [H _]; congruence.
  - intros d [Hl _]. rewrite bool_decide_eq_false_2; [done|].
    rewrite Hl. congruence.
Qed.

Section ResolvedPass.

Abbreviation resolveStep :=
  (λ (currentState : GameState) (threat : ActiveThreat),
     if bool_decide (kind (card threat) ≠ internal) then currentState
     else if isThreatResolved threat (crew currentState) then
       let '(threats, crew') :=
         resolveThreat (activeThreats currentState) (crew currentState)
                       (threat_id threat) in
       currentState
         <| set_activeThreats := threats |>
         <| set_crew := crew' |>
         <| set_discard := discard currentState ++ [card threat] |>
         <| set_log := log currentState
                         ++ [name (card threat) +:+ " resolved!"] |>
     else currentState).

Lemma resolveStep_facts (s : GameState) (t0 : ActiveThreat) :
  activeThreats (resolveStep s t0) `sublist_of` activeThreats s
  ∧ (∀ t, t ∈ activeThreats (resolveStep s t0) →
          isThreatResolved t (crew (resolveStep s t0))
          = isThreatResolved t (crew s))
  ∧ (t0 ∈ activeThreats (resolveStep s t0) → kind (card t0) = internal →
     isThreatResolved t0 (crew (resolveStep s t0)) = false).
Proof.
  cbn beta.
  destruct (decide (kind (card t0) = internal)) as [Hk|Hk].
  - rewrite (bool_decide_eq_false_2 (kind (card t0) ≠ internal)) by tauto.
    destruct (isThreatResolved t0 (crew s)) eqn:Hres; [|done].
    cbn [resolveThreat activeThreats crew set_log set_discard set_crew
         set_activeThreats].
    split_and!.
    + apply sublist_filter.
    + intros t [Hne _]%list_elem_of_filter.
      by apply isThreatResolved_other_freed.
    + by intros [Hne _]%list_elem_of_filter.
  - rewrite (bool_decide_eq_true_2 _ Hk). done.
Qed.

Lemma resolvedPass_facts (l : list ActiveThreat) (s : GameState) :
  activeThreats (foldl resolveStep s l) `sublist_of` activeThreats s
  ∧ (∀ t, t ∈ activeThreats (foldl resolveStep s l) →
          isThreatResolved t (crew (foldl resolveStep s l))
          = isThreatResolved t (crew s))
  ∧ (∀ t, t ∈ l → t ∈ activeThreats (foldl resolveStep s l) →
          kind (card t) = internal →
          isThreatResolved t (crew (foldl resolveStep s l)) = false).
Proof.
  revert s. induction l as [|t0 l IH]; intros s.
  { split_and!; [done|done|]. by intros t ?%elem_of_nil. }
  cbn [foldl].
  destruct (resolveStep_facts s t0) as (Ha1 & Hb1 & Hc1).
  destruct (IH (resolveStep s t0)) as (Ha & Hb & Hc).
  assert (∀ t, t ∈ activeThreats (foldl resolveStep (resolveStep s t0) l) →
               t ∈ activeThreats (resolveStep s t0)) as Hin.
  { intros t Ht. by eapply elem_of_sublist. }
  split_and!.
  - by etrans.
  - intros t Ht. rewrite Hb by done. by apply Hb1, Hin.
  - intros t [->|Ht]%elem_of_cons Hres Hk.
    + rewrite Hb by done. by apply Hc1; [apply Hin|].
    + by apply Hc.
Qed.

End ResolvedPass.

(** X24.  After the resolution pass no internal threat left on the board
    meets its requirement with the crew as it then stands; the pass only
    removes threats, it adds or reorders none. *)
Theorem processResolvedThreats_leaves_none_resolved (s : GameState) :
  activeThreats (processResolvedThreats s) `sublist_of` activeThreats s
  ∧ ∀ t, t ∈ activeThreats (processResolvedThreats s) →
         kind (card t) = internal →
         isThreatResolved t (crew (processResolvedThreats s)) = false.
Proof.
  unfold processResolvedThreats.
  destruct (resolvedPass_facts (activeThreats s) s) as (Ha & _ & Hc).
  split; [exact Ha|]. intros t Ht Hk. apply Hc; [|done..].
  by eapply elem_of_sublist.
Qed.

(** ** Ship resources stay within their bounds *)

Ltac setters :=
  cbn [status phase hull maxHull shields maxShields crew activeThreats deck
       discard log drawnCard usedStationActions
       set_status set_phase set_difficulty set_hull set_maxHull
       set_shields set_maxShields set_crew set_activeThreats set_deck
       set_discard set_threatDieFace set_selectedDieId set_tacticalDice
       set_log set_lossReason set_turnNumber set_elapsedSeconds
       set_drawnCard set_nebulaActive set_commsOfflineActive
       set_setupDrawsRemaining set_usedStationActions].

Section Bounds.

Implicit Types (s : GameState) (w : World).

Lemma withPassiveFlags_bounds s :
  shipInBounds s → shipInBounds (withPassiveFlags s).
Proof. done. Qed.

Lemma withWinLossCheck_bounds s :
  shipInBounds s → shipInBounds (withWinLossCheck s).
Proof. unfold withWinLossCheck. by repeat case_match. Qed.

Lemma drawAndProcessCard_bounds s w :
  shipInBounds s → shipInBounds (drawAndProcessCard s w).1.
Proof.
  intros Hb. unfold drawAndProcessCard.
  destruct (drawCard (deck s)) as [[c remainingDeck]|]; [|done].
  case_bool_decide; [done|]. rewrite !bind_run.
  match goal with |- context [let '(_, _) := ?p in _] => destruct p end.
  rewrite ret_run. cbn [fst]. unfold shipInBounds, spreadEffects in *.
  setters. unfold applyRevealEffect.
  repeat (case_match; rewrite ?bind_run, ?ret_run;
          cbn [fst snd re_hull re_shields default noEffects]; try done).
  all: unfold id; setters; lia.
Qed.

Lemma scannerDraws_bounds todo i n s w :
  shipInBounds s → shipInBounds (scannerDraws todo i n s w).1.
Proof.
  revert i s w. induction todo as [|todo IH]; intros i s w Hb; [done|].
  cbn [scannerDraws]. rewrite bind_run. apply IH.
  by apply (drawAndProcessCard_bounds s w).
Qed.

Lemma rerollDraws_bounds todo s w :
  shipInBounds s → shipInBounds (rerollDraws todo s w).1.
Proof.
  revert s w. induction todo as [|todo IH]; intros s w Hb; [done|].
  cbn [rerollDraws]. rewrite bind_run. by apply IH, drawAndProcessCard_bounds.
Qed.

Lemma processResolvedThreats_bounds s :
  shipInBounds s → shipInBounds (processResolvedThreats s).
Proof.
  unfold processResolvedThreats. generalize (activeThreats s) at 1.
  intros l. revert s. induction l as [|t l IH]; intros s Hb; [done|].
  cbn [foldl]. apply IH. by repeat case_match.
Qed.

Lemma activateThreats_bounds s rolled :
  shipInBounds s →
  0 ≤ ar_hull (activateThreats s rolled) ≤ maxHull s
  ∧ 0 ≤ ar_shields (activateThreats s rolled) ≤ maxShields s.
Proof.
  intros [Hh Hs]. unfold activateThreats.
  destruct (pass_bounds rolled (sort_by internalFirst (activeThreats s))
              {| ar_hull := hull s; ar_shields := shields s;
                 ar_threats := activeThreats s; ar_crew := crew s;
                 ar_log := []; ar_extraDraw := false |}) as [H1 H2];
    cbn [ar_hull ar_shields] in *; lia.
Qed.

Lemma setPhase_bounds p s :
  shipInBounds s → shipInBounds (s <| set_phase := p |>).
Proof. done. Qed.

Lemma openingState_bounds (difficulty : Difficulty) (deck0 : list ThreatCard) :
  shipInBounds
    (makeInitialState
       <| set_status := playing |>
       <| set_phase := rolling |>
       <| set_difficulty := difficulty |>
       <| set_deck := deck0 |>
       <| set_crew := freshCrew |>
       <| set_log := ["Game started. Drawing 2 initial threat cards..."] |>
       <| set_turnNumber := 1 |>
       <| set_setupDrawsRemaining := 2 |>).
Proof.
  unfold shipInBounds. setters.
  cbn [hull maxHull shields maxShields makeInitialState]. lia.
Qed.

Lemma startNewGame_bounds difficulty w :
  shipInBounds (startNewGame difficulty w).1.
Proof.
  unfold startNewGame. rewrite bind_run.
  destruct (buildDeck difficulty w) as [deck0 w0]. cbn [fst snd].
  rewrite bind_run, ret_run. cbn [fst].
  apply withWinLossCheck_bounds, withPassiveFlags_bounds, setPhase_bounds,
    drawAndProcessCard_bounds, openingState_bounds.
Qed.

End Bounds.

Lemma shipInBounds_frame (f : GameState → GameState) :
  (∀ x, hull (f x) = hull x) → (∀ x, maxHull (f x) = maxHull x) →
  (∀ x, shields (f x) = shields x) → (∀ x, maxShields (f x) = maxShields x) →
  ∀ s, shipInBounds s → shipInBounds (f s).
Proof. unfold shipInBounds. intros H1 H2 H3 H4 s. by rewrite H1, H2, H3, H4. Qed.

(** One layer of the state expression at a time, by its head symbol. *)
Ltac bounds_step :=
  lazymatch goal with
  | |- shipInBounds (withWinLossCheck _) => apply withWinLossCheck_bounds
  | |- shipInBounds (withPassiveFlags _) => apply withPassiveFlags_bounds
  | |- shipInBounds (drawAndProcessCard _ _).1 =>
      apply drawAndProcessCard_bounds
  | |- shipInBounds (scannerDraws _ _ _ _ _).1 => apply scannerDraws_bounds
  | |- shipInBounds (rerollDraws _ _ _).1 => apply rerollDraws_bounds
  | |- shipInBounds (processResolvedThreats _) =>
      apply processResolvedThreats_bounds
  | |- shipInBounds (set_hull _ _) => fail
  | |- shipInBounds (set_shields _ _) => fail
  | |- shipInBounds (?f ?v ?s) =>
      apply (shipInBounds_frame (f v)); [intros ?; reflexivity..|]
  end.

Lemma gameReducer_bounds state action w :
  (∀ l, action ≠ TEST_LOAD_STATE l) →
  shipInBounds state → shipInBounds (gameReducer state action w).1.
Proof.
  intros Hload Hb.
  destruct action; try (exfalso; by eapply Hload); unfold gameReducer.
  all: try apply startNewGame_bounds.
  all: repeat case_match.
  all: rewrite ?bind_run, ?ret_run; cbn [fst snd].
  all: repeat bounds_step.
  all: try match goal with |- shipInBounds ?s => is_var s; exact Hb end.
  all: try match goal with
           | |- context [activateThreats ?s ?r] =>
               pose proof (activateThreats_bounds s r Hb)
           end.
  all: unfold shipInBounds, resolveEngineering, resolveScience in *; setters;
    lia.
Qed.

(** X25.  Hull and shields never leave their bounds: from a state with
    0 <= hull <= maxHull and 0 <= shields <= maxShields, any sequence of
    actions other than the raw state load ends in such a state, whatever the
    dice and the deck do. *)
Theorem reducer_keeps_ship_in_bounds
    (trace : list GameAction) (state : GameState) (w : World) :
  Forall (λ a, ∀ l, a ≠ TEST_LOAD_STATE l) trace →
  shipInBounds state →
  shipInBounds (dispatchAll state trace w).1.
Proof.
  intros Htrace. revert state w.
  induction Htrace as [|a trace Ha _ IH]; intros state w Hb; [done|].
  cbn [dispatchAll]. rewrite bind_run. by apply IH, gameReducer_bounds.
Qed.

Lemma reducer_keeps_ship_in_bounds_witness :
  shipInBounds
    (dispatchAll barrierScenario
       [THREAT_ROLL_COMPLETE (activation OUROBOROS_BARRIER);
        ACKNOWLEDGE_ACTIVATE; ACKNOWLEDGE_GATHER] quietWorld).1.
Proof.
  apply (reducer_keeps_ship_in_bounds
           [THREAT_ROLL_COMPLETE (activation OUROBOROS_BARRIER);
            ACKNOWLEDGE_ACTIVATE; ACKNOWLEDGE_GATHER]
           barrierScenario quietWorld).
  - repeat constructor; intros l; discriminate.
  - unfold shipInBounds. vm_compute. repeat split; discriminate.
Defined.

(** ** The turn cycle *)

Section Phases.

Implicit Types (s : GameState) (w : World).

Lemma drawAndProcessCard_phase s w :
  phase (drawAndProcessCard s w).1 = phase s.
Proof.
  unfold drawAndProcessCard.
  destruct (drawCard (deck s)) as [[c remainingDeck]|]; [|done].
  case_bool_decide; [done|]. rewrite !bind_run.
  match goal with |- context [let '(_, _) := ?p in _] => destruct p end.
  reflexivity.
Qed.

Lemma scannerDraws_phase todo i n s w :
  phase (scannerDraws todo i n s w).1 = phase s.
Proof.
  revert i s w. induction todo as [|todo IH]; intros i s w; [done|].
  cbn [scannerDraws]. rewrite bind_run, IH. cbn.
  apply drawAndProcessCard_phase.
Qed.

Lemma rerollDraws_phase todo s w :
  phase (rerollDraws todo s w).1 = phase s.
Proof.
  revert s w. induction todo as [|todo IH]; intros s w; [done|].
  cbn [rerollDraws]. rewrite bind_run, IH. apply drawAndProcessCard_phase.
Qed.

Lemma processResolvedThreats_phase s :
  phase (processResolvedThreats s) = phase s.
Proof.
  unfold processResolvedThreats. generalize (activeThreats s) at 1.
  intros l. revert s. induction l as [|t l IH]; intros s; [done|].
  cbn [foldl]. rewrite IH. repeat case_match; reflexivity.
Qed.

End Phases.

Ltac phase_frames :=
  repeat (progress
    (rewrite ?bind_run, ?ret_run; cbn [fst snd];
     rewrite ?withWinLossCheck_phase, ?withPassiveFlags_phase,
       ?scannerDraws_phase, ?rerollDraws_phase, ?drawAndProcessCard_phase,
       ?processResolvedThreats_phase;
     setters)).

(** X26.  No action but NEW_GAME and the raw state load skips a phase: the
    phase after an action is the phase before it or its successor in the
    cycle rolling, assigning, drawing, activating, gathering, rolling, the
    one shortcut being the end of the setup draws, which leads from drawing
    straight to rolling.  Outside a running game the phase never moves. *)
Theorem reducer_follows_turn_cycle
    (state : GameState) (action : GameAction) (w : World) :
  (∀ d, action ≠ NEW_GAME d) → (∀ l, action ≠ TEST_LOAD_STATE l) →
  let next := (gameReducer state action w).1 in
  (phase next = phase state
   ∨ (status state = playing ∧ phase next = nextPhase (phase state))
   ∨ (status state = playing ∧ action = ACKNOWLEDGE_DRAW
      ∧ setupDrawsRemaining state = 1
      ∧ phase state = drawing ∧ phase next = rolling)).
Proof.
  intros Hnew Hload. cbn zeta.
  destruct action;
    try (by first [exfalso; by eapply Hnew | exfalso; by eapply Hload]);
    unfold gameReducer.
  all: try (destruct (notIn _ state) eqn:Hin; [by left|]).
  all: try (apply orb_false_iff in Hin as [Hst Hph];
            apply bool_decide_eq_false in Hst, Hph;
            apply dec_stable in Hst, Hph).
  all: repeat case_match.
  all: phase_frames.
  all: try (left; reflexivity).
  all: try (left; rewrite Hph; reflexivity).
  all: try (right; left; split; [exact Hst|rewrite Hph; reflexivity]).
  all: right; right; split_and!; try done.
  all: by eapply bool_decide_eq_true_1.
Qed.

Lemma reducer_follows_turn_cycle_witness :
  let next := (gameReducer emptyDeckScenario END_ASSIGN_PHASE quietWorld).1 in
  (phase next = phase emptyDeckScenario
   ∨ (status emptyDeckScenario = playing
      ∧ phase next = nextPhase (phase emptyDeckScenario))
   ∨ (status emptyDeckScenario = playing
      ∧ END_ASSIGN_PHASE = ACKNOWLEDGE_DRAW
      ∧ setupDrawsRemaining emptyDeckScenario = 1
      ∧ phase emptyDeckScenario = drawing ∧ phase next = rolling)).
Proof.
  apply (reducer_follows_turn_cycle emptyDeckScenario END_ASSIGN_PHASE
           quietWorld); intros ?; discriminate.
Defined.

(** ** Instances of the illegal-action policy *)

Lemma wrong_phase_noop_witness :
  gameReducer piratesScenario USE_MEDICAL quietWorld
  = (piratesScenario, quietWorld).
Proof.
  apply (wrong_phase_noop piratesScenario USE_MEDICAL quietWorld assigning);
    reflexivity.
Defined.

Lemma assign_absent_or_busy_die_noop_witness :
  (∀ stationId,
     gameReducer medicalScenario (ASSIGN_TO_STATION 1 stationId) quietWorld
     = (medicalScenario, quietWorld))
  ∧ (∀ threatId,
       gameReducer medicalScenario (ASSIGN_TO_THREAT 1 threatId) quietWorld
       = (medicalScenario, quietWorld)).
Proof.
  apply (assign_absent_or_busy_die_noop medicalScenario quietWorld 1).
  intros d Hd Hid Hl. cbn in Hd.
  repeat (apply elem_of_cons in Hd as [->|Hd];
          [first [discriminate Hid | discriminate Hl]|]).
  by apply elem_of_nil in Hd.
Defined.

Lemma absent_threat_noop_witness :
  (∀ dieId,
     gameReducer emptyDeckScenario (ASSIGN_TO_THREAT dieId "nebula-7")
                 quietWorld = (emptyDeckScenario, quietWorld))
  ∧ gameReducer emptyDeckScenario (USE_TACTICAL "nebula-7") quietWorld
    = (emptyDeckScenario, quietWorld)
  ∧ gameReducer emptyDeckScenario (USE_SCIENCE_STASIS "nebula-7") quietWorld
    = (emptyDeckScenario, quietWorld).
Proof.
  apply (absent_threat_noop emptyDeckScenario quietWorld "nebula-7").
  cbn. constructor; [discriminate|constructor].
Defined.

Lemma ineligible_threat_assignment_noop_witness :
  gameReducer assignScenario (ASSIGN_TO_THREAT 0 "comms-offline-1") quietWorld
  = (assignScenario, quietWorld).
Proof.
  apply (ineligible_threat_assignment_noop assignScenario quietWorld 0
           "comms-offline-1"
           {| die_id := 0; face := face_tactical; location := pool |}
           commsOfflineThreat); reflexivity.
Defined.
